(** * go-raml/raml: the include preprocessor, the entry point [ParseFile],
      the YAML error translator and the [DefinitionChoice] decoder.

    A shallow embedding of [parser.go], of the error-translation file and of
    [DefinitionChoice.UnmarshalYAML] from [types.go].

    Conventions of the embedding:
    - a Go [string] / [[]byte] is a [string] (a sequence of 8-bit characters);
      a nil [[]byte] and an empty one are both the empty string;
    - a Go [int] is a [Z] (string lengths stay far below 2^63, so no
      wrap-around is written out);
    - a Go [error] is [option string]: [None] is [nil], [Some msg] carries
      the text of [err.Error()];
    - a function with several results returns a tuple;
    - a run-time panic (slice or index out of range) is the outcome
      [Panicked];
    - calls that leave the process (reading a file, handing a buffer to the
      YAML engine) are recorded in a trace of events; writes to standard
      output ([pretty.Println], [fmt.Println]) are not recorded. *)

From Stdlib Require Import ZArith Ascii String List Lia Bool.
From stdpp Require Import base option list gmap strings.

Local Open Scope string_scope.
Local Open Scope Z_scope.

(** ** Go strings *)

Module GoString.

Definition LF : ascii := "010"%char.
Definition CR : ascii := "013"%char.
Definition nl : string := String LF EmptyString.

(** [len(s)] *)
Definition len (s : string) : Z := Z.of_nat (String.length s).

Fixpoint take (n : nat) (s : string) : string :=
  match n, s with
  | S n', String c s' => String c (take n' s')
  | _, _ => EmptyString
  end.

Fixpoint drop (n : nat) (s : string) : string :=
  match n, s with
  | S n', String _ s' => drop n' s'
  | _, _ => s
  end.

(** [strings.HasPrefix(s, p)] *)
Fixpoint HasPrefix (s p : string) : bool :=
  match p, s with
  | EmptyString, _ => true
  | String a p', String b s' => if Ascii.eqb b a then HasPrefix s' p' else false
  | String _ _, EmptyString => false
  end.

(** The offset of the first occurrence of [substr] in [s]. *)
Fixpoint index_nat (s substr : string) : option nat :=
  if HasPrefix s substr then Some O
  else match s with
       | EmptyString => None
       | String _ s' => option_map S (index_nat s' substr)
       end.

(** [strings.Index(s, substr)]: the first occurrence, or -1. *)
Definition Index (s substr : string) : Z :=
  match index_nat s substr with
  | Some n => Z.of_nat n
  | None => -1
  end.

(** [strings.Contains(s, substr)] *)
Definition Contains (s substr : string) : bool := 0 <=? Index s substr.

(** [strings.Repeat(s, count)] for a non-negative count. *)
Fixpoint repeat_nat (s : string) (n : nat) : string :=
  match n with
  | O => EmptyString
  | S n' => s ++ repeat_nat s n'
  end.

Definition Repeat (s : string) (count : Z) : string := repeat_nat s (Z.to_nat count).

(** [strings.Split(s, sep)] for a separator of one byte, which is how the
    source calls it ([" "]). *)
Fixpoint Split (s : string) (sep : ascii) : list string :=
  match s with
  | EmptyString => [EmptyString]
  | String c s' =>
      if Ascii.eqb c sep then EmptyString :: Split s' sep
      else match Split s' sep with
           | [] => [String c EmptyString]
           | p :: ps => String c p :: ps
           end
  end.

End GoString.

Import GoString.

(** ** Outcomes, events and the trace monad *)

Inductive Event : Type :=
  | EvReadFile (path : string)
  | EvUnmarshal (input : string).

Inductive Outcome (A : Type) : Type :=
  | Returned (a : A)
  | Panicked (msg : string).
Arguments Returned {A} a.
Arguments Panicked {A} msg.

Definition error : Type := option string.

Definition M (A : Type) : Type := (list Event * Outcome A)%type.

Definition ret {A} (a : A) : M A := ([], Returned a).
Definition panic {A} (msg : string) : M A := ([], Panicked msg).
Definition emit (e : Event) : M unit := ([e], Returned tt).

Definition bind {A B} (m : M A) (k : A -> M B) : M B :=
  match m with
  | (t, Returned a) => let (t', r) := k a in ((t ++ t')%list, r)
  | (t, Panicked msg) => (t, Panicked msg)
  end.

Notation "'let*' p ':=' m 'in' k" := (bind m (fun p => k))
  (at level 10, p pattern, m at level 100, k at level 200).

Definition trace {A} (m : M A) : list Event := fst m.
Definition outcome {A} (m : M A) : Outcome A := snd m.

(** [s[lo:hi]] and [s[lo:]]: out-of-range bounds panic. *)
Definition slice (s : string) (lo hi : Z) : M string :=
  if (0 <=? lo) && (lo <=? hi) && (hi <=? len s)
  then ret (take (Z.to_nat (hi - lo)) (drop (Z.to_nat lo) s))
  else panic "runtime error: slice bounds out of range".

Definition slice_from (s : string) (lo : Z) : M string := slice s lo (len s).
Definition slice_to (s : string) (hi : Z) : M string := slice s 0 hi.

(** [xs[i]] on a slice of strings: an index out of range panics. *)
Definition at_index (xs : list string) (i : nat) : M string :=
  match xs !! i with
  | Some x => ret x
  | None => panic "runtime error: index out of range"
  end.

(** ** Library functions the parser calls *)

(** [bufio.Scanner] with its default split function [bufio.ScanLines] and
    its default buffer limit.  The scanner's behaviour does not depend on
    what the caller does between two calls of [Scan], so a scanner over a
    fully buffered input is described by the tokens the successive calls of
    [Scan] deliver and by the value of [Err] once [Scan] has returned
    false. *)
Module Bufio.

(** [bufio.MaxScanTokenSize = 64 * 1024] *)
Definition MaxScanTokenSize : Z := 64 * 1024.

Definition ErrTooLong : string := "bufio.Scanner: token too long".

(** The input cut at every line feed.  The piece after the last line feed
    is a line of its own only when it is not empty. *)
Fixpoint raw_lines (data : string) : list string :=
  match data with
  | EmptyString => []
  | String c rest =>
      if Ascii.eqb c LF then EmptyString :: raw_lines rest
      else match raw_lines rest with
           | [] => [String c EmptyString]
           | l :: ls => String c l :: ls
           end
  end.

(** [dropCR]: one trailing carriage return is removed. *)
Fixpoint dropCR (data : string) : string :=
  match data with
  | EmptyString => EmptyString
  | String c EmptyString => if Ascii.eqb c CR then EmptyString else data
  | String c rest => String c (dropCR rest)
  end.

(** A line of [MaxScanTokenSize] bytes or more (its terminator not counted)
    fills the buffer before a token is found: [Scan] returns false and
    [Err] is [ErrTooLong]. *)
Fixpoint scan (raw : list string) : list string * error :=
  match raw with
  | [] => ([], None)
  | l :: ls =>
      if MaxScanTokenSize <=? len l then ([], Some ErrTooLong)
      else let (ts, e) := scan ls in (dropCR l :: ts, e)
  end.

(** The tokens of a scanner created on [data], and its final [Err]. *)
Definition Scanner (data : string) : list string * error := scan (raw_lines data).

End Bufio.

(** [bytes.Buffer.ReadString(delim)]: the bytes up to and including the
    first [delim], the rest of the buffer, and [io.EOF] when the buffer
    ends before a [delim] is met. *)
Fixpoint ReadString (buf : string) (delim : ascii) : string * string * error :=
  match buf with
  | EmptyString => (EmptyString, EmptyString, Some "EOF")
  | String c rest =>
      if Ascii.eqb c delim then (String c EmptyString, rest, None)
      else let '(l, r, e) := ReadString rest delim in (String c l, r, e)
  end.

(** [filepath.Split] with [/] as the separator: the path is cut after its
    last separator. *)
Fixpoint filepath_Split (path : string) : string * string :=
  match path with
  | EmptyString => (EmptyString, EmptyString)
  | String c rest =>
      let (dir, file) := filepath_Split rest in
      if Ascii.eqb c "/" then (String c dir, file)
      else match dir with
           | EmptyString => (EmptyString, String c file)
           | _ => (String c dir, file)
           end
  end.

(** ** The document model *)

(** [APIDefinition]: the version field, which [ParseFile] sets itself, and
    the fields the YAML engine fills in, kept abstract. *)
Record APIDefinition (Fields : Type) : Type := mkAPIDefinition {
  RAMLVersion : string;
  fields : Fields
}.
Arguments mkAPIDefinition {Fields} _ _.
Arguments RAMLVersion {Fields} _.
Arguments fields {Fields} _.

(** ** parser.go *)

Section Parser.

(** The fields of an [APIDefinition] and their zero value. *)
Context {Fields : Type} (zeroFields : Fields).

(** [filepath.Join] *)
Variable filepath_Join : string -> string -> string.

(** [ioutil.ReadFile]: the file system is the same all along a call. *)
Variable ioutil_ReadFile : string -> string * error.

(** [yaml.Unmarshal(in, out)]: the value [out] points to after the call,
    and the error. *)
Variable yaml_Unmarshal :
  string -> APIDefinition Fields -> APIDefinition Fields * error.

Definition ReadFile (filePath : string) : M (string * error) :=
  let* _ := emit (EvReadFile filePath) in ret (ioutil_ReadFile filePath).

Definition Unmarshal (input : string) (out : APIDefinition Fields)
  : M (APIDefinition Fields * error) :=
  let* _ := emit (EvUnmarshal input) in ret (yaml_Unmarshal input out).

(** Reads the contents of a file. *)
Definition readFileContents (workingDirectory fileName : string)
  : M (string * error) :=
  let filePath := filepath_Join workingDirectory fileName in
  if String.eqb fileName "" then
    ret ("", Some ("File name cannot be nil: " ++ filePath))
  else
    let* (fileContentsArray, err) := ReadFile filePath in
    match err with
    | Some e =>
        ret ("", Some ("Could not read file " ++ filePath ++
                       " (Error: " ++ e ++ ")"))
    | None => ret (fileContentsArray, None)
    end.

(** The state of the inner loop of [preProcess]: the output buffer,
    [firstLine] and [indentationString]. *)
Definition include_step (idx : Z) (st : string * bool * string)
  (internalLine : string) : string * bool * string :=
  let '(preprocessedContents, firstLine, indentationString) := st in
  let preprocessedContents := preprocessedContents ++ indentationString in
  let '(indentationString, firstLine) :=
    if firstLine then (Repeat " " idx, false)
    else (indentationString, firstLine) in
  (preprocessedContents ++ internalLine ++ nl, firstLine, indentationString).

(** The inner loop: [internalScanner.Err()] is never looked at. *)
Definition write_included (idx : Z) (includedContents : string)
  (preprocessedContents : string) : string :=
  let internalLines := fst (Bufio.Scanner includedContents) in
  fst (fst (fold_left (include_step idx) internalLines
                      (preprocessedContents, true, ""))).

(** What one turn of the outer loop does: go on with a new buffer, or
    leave [preProcess] with its results. *)
Inductive Step : Type :=
  | Next (preprocessedContents : string)
  | Return (r : string * error).

Definition preProcess_line (workingDirectory : string)
  (preprocessedContents line : string) : M Step :=
  let idx := Index line "!include" in
  if negb (idx =? -1) then
    let includeLength := len "!include " in
    let* includedFile := slice_from line (idx + includeLength) in
    let* before := slice_to line idx in
    let preprocessedContents := preprocessedContents ++ before in
    let* (includedContents, err) :=
      readFileContents workingDirectory includedFile in
    match err with
    | Some e =>
        ret (Return ("", Some ("Error including file " ++ includedFile ++
                               ":" ++ nl ++ "    " ++ e)))
    | None =>
        ret (Next (write_included idx includedContents preprocessedContents))
    end
  else
    ret (Next (preprocessedContents ++ line ++ nl)).

Fixpoint preProcess_loop (workingDirectory : string) (lines : list string)
  (preprocessedContents : string) : M Step :=
  match lines with
  | [] => ret (Next preprocessedContents)
  | line :: rest =>
      let* st := preProcess_line workingDirectory preprocessedContents line in
      match st with
      | Next preprocessedContents' =>
          preProcess_loop workingDirectory rest preprocessedContents'
      | Return r => ret (Return r)
      end
  end.

(** [preProcess]: the results are the pre-processed document and the
    error. *)
Definition preProcess (originalContents workingDirectory : string)
  : M (string * error) :=
  let (lines, scanErr) := Bufio.Scanner originalContents in
  let* st := preProcess_loop workingDirectory lines "" in
  match st with
  | Return r => ret r
  | Next preprocessedContents =>
      match scanErr with
      | Some e => ret ("", Some ("Error reading YAML file: " ++ e))
      | None => ret (preprocessedContents, None)
      end
  end.

Definition versionMarker : string := "#%RAML 0.8".

Definition versionError : string :=
  "Input file is not a RAML 0.8 file. Make " ++
  "sure the file starts with #%RAML 0.8".

(** [ParseFile]: the results are the pointer to the document ([None] is
    nil) and the error. *)
Definition ParseFile (filePath : string)
  : M (option (APIDefinition Fields) * error) :=
  let (workingDirectory, fileName) := filepath_Split filePath in
  let* (mainFileBytes, err) := readFileContents workingDirectory fileName in
  match err with
  | Some e => ret (None, Some e)
  | None =>
      let '(firstLine, mainFileBuffer, rerr) := ReadString mainFileBytes LF in
      match rerr with
      | Some e =>
          ret (None, Some ("Problem reading RAML file (Error: " ++ e ++ ")"))
      | None =>
          let* ramlVersion :=
            (if 10 <=? len firstLine then slice_to firstLine 10 else ret "") in
          if negb (String.eqb ramlVersion versionMarker) then
            ret (None, Some versionError)
          else
            let* (preprocessedContentsBytes, err) :=
              preProcess mainFileBuffer workingDirectory in
            match err with
            | Some e =>
                ret (None, Some ("Error preprocessing RAML file (Error: " ++
                                 e ++ ")"))
            | None =>
                let apiDefinition := mkAPIDefinition ramlVersion zeroFields in
                let* (apiDefinition, err) :=
                  Unmarshal preprocessedContentsBytes apiDefinition in
                match err with
                | Some e =>
                    ret (None, Some ("Problems parsing RAML:" ++ nl ++
                                     "  " ++ e))
                | None => ret (Some apiDefinition, None)
                end
            end
      end
  end.

End Parser.

(** ** The error translator *)

Module Errors.

Definition yamlTypeToName : gmap string string :=
  list_to_map [
    ("!!seq", "sequence");
    ("!!map", "mapping");
    ("!!int", "integer");
    ("!!str", "string");
    ("!!null", "null");
    ("!!bool", "boolean");
    ("!!float", "float");
    ("!!timestamp", "timestamp");
    ("!!binary", "binary");
    ("!!merge", "merge") ].

Definition ramlTypeNames : gmap string string :=
  list_to_map [
    ("string", "string value");
    ("int", "numeric value");
    ("raml.NamedParameter", "named parameter");
    ("raml.HTTPCode", "HTTP code");
    ("raml.HTTPHeader", "HTTP header");
    ("raml.Header", "header");
    ("raml.Documentation", "documentation");
    ("raml.Body", "body");
    ("raml.Response", "response");
    ("raml.DefinitionParameters", "definition parameters");
    ("raml.DefinitionChoice", "definition choice");
    ("raml.Trait", "trait");
    ("raml.ResourceTypeMethod", "resource type method");
    ("raml.ResourceType", "resource type");
    ("raml.SecuritySchemeMethod", "security scheme method");
    ("raml.SecurityScheme", "security scheme");
    ("raml.Method", "method");
    ("raml.Resource", "resource");
    ("raml.APIDefinition", "API definition") ].

Definition ramlTypes : gmap string string :=
  list_to_map [
    ("string", "string");
    ("int", "integer");
    ("raml.NamedParameter", "mapping");
    ("raml.HTTPCode", "integer");
    ("raml.HTTPHeader", "string");
    ("raml.Header", "mapping");
    ("raml.Documentation", "mapping");
    ("raml.Body", "mapping");
    ("raml.Response", "mapping");
    ("raml.DefinitionParameters", "mapping");
    ("raml.DefinitionChoice", "string or mapping");
    ("raml.Trait", "mapping");
    ("raml.ResourceTypeMethod", "mapping");
    ("raml.ResourceType", "mapping");
    ("raml.SecuritySchemeMethod", "mapping");
    ("raml.SecurityScheme", "mapping");
    ("raml.Method", "mapping");
    ("raml.Resource", "mapping");
    ("raml.APIDefinition", "mapping") ].

(** [v, ok = table[key]; if !ok { v = key }] *)
Definition lookup_or_key (table : gmap string string) (key : string) : string :=
  match table !! key with
  | Some v => v
  | None => key
  end.

(** [v, _ = table[key]]: the zero value when the key is absent. *)
Definition lookup_or_zero (table : gmap string string) (key : string) : string :=
  match table !! key with
  | Some v => v
  | None => ""
  end.

(** Convert a YAML error string into a RAML error string. *)
Definition convertYAMLError (yamlError : string) : M string :=
  if Contains yamlError "cannot unmarshal" then
    let yamlErrorParts := Split yamlError " " in
    if 7 <=? Z.of_nat (length yamlErrorParts) then
      let* line := at_index yamlErrorParts 1 in
      let* line := slice_to line (len line - 1) in
      let* part4 := at_index yamlErrorParts 4 in
      let source := lookup_or_key yamlTypeToName part4 in
      let* (source, target) :=
        (if String.eqb source "string" then
           let* part5 := at_index yamlErrorParts 5 in
           let source := "string (got " ++ part5 ++ ")" in
           let* target := at_index yamlErrorParts 7 in
           ret (source, target)
         else
           let* target := at_index yamlErrorParts 6 in
           ret (source, target)) in
      let targetName := lookup_or_key ramlTypeNames target in
      let target := lookup_or_zero ramlTypes target in
      ret ("line " ++ line ++ ": " ++ targetName ++ " cannot be of " ++
           "type " ++ source ++ ", must be " ++ target)
    else ret ("YAML error, " ++ yamlError)
  else ret ("YAML error, " ++ yamlError).

(** [RamlError] is its list [Errors]. *)
Record RamlError : Type := mkRamlError { Errors : list string }.

(** The method [Error] of [RamlError]. *)
Definition RamlError_Error (e : RamlError) : string :=
  "Error parsing RAML:" ++ nl ++ "  " ++
  String.concat (nl ++ "  ") (Errors e) ++ nl.

(** [populateRAMLError]: the converted errors are appended in order. *)
Fixpoint populateRAMLError (ramlError : RamlError) (yamlErrors : list string)
  : M RamlError :=
  match yamlErrors with
  | [] => ret ramlError
  | currErr :: rest =>
      let* converted := convertYAMLError currErr in
      populateRAMLError (mkRamlError (Errors ramlError ++ [converted])%list) rest
  end.

End Errors.

(** ** [DefinitionChoice] and its decoder (types.go) *)

Module Types.

(** [map[string]string]; [None] is the nil map. *)
Definition DefinitionParameters : Type := option (gmap string string).

Record DefinitionChoice : Type := mkDefinitionChoice {
  Name : string;
  Parameters : DefinitionParameters
}.

(** The callback [unmarshaler func(interface{}) error] the YAML engine hands
    to [UnmarshalYAML].  The method calls it on a [*string] and on a
    [map[string]DefinitionParameters]; each field gives the value behind
    the argument after the call, and the error. *)
Record Unmarshaler : Type := mkUnmarshaler {
  into_string : string -> string * error;
  into_map : gmap string DefinitionParameters ->
             gmap string DefinitionParameters * error
}.

(** The kind of value the callback was called on. *)
Inductive Target : Type := TString | TMap.

Section Decoder.

(** The order in which [range] visits a map, which Go leaves open. *)
Variable range : gmap string DefinitionParameters ->
                 list (string * DefinitionParameters).

Definition assign (dc : DefinitionChoice) (kv : string * DefinitionParameters)
  : DefinitionChoice :=
  mkDefinitionChoice (fst kv) (snd kv).

(** The method [UnmarshalYAML] of [DefinitionChoice]: the calls made to the callback, the
    value of [dc] afterwards, and the error returned. *)
Definition UnmarshalYAML (dc : DefinitionChoice) (unmarshaler : Unmarshaler)
  : list Target * DefinitionChoice * error :=
  let simpleDefinition := "" in
  let parameterizedDefinition : gmap string DefinitionParameters := ∅ in
  let (simpleDefinition, err) := into_string unmarshaler simpleDefinition in
  match err with
  | None => ([TString], mkDefinitionChoice simpleDefinition None, None)
  | Some _ =>
      let (parameterizedDefinition, err) :=
        into_map unmarshaler parameterizedDefinition in
      match err with
      | None =>
          ([TString; TMap],
           fold_left assign (range parameterizedDefinition) dc, None)
      | Some e => ([TString; TMap], dc, Some e)
      end
  end.

End Decoder.

(** A YAML node, as far as the two shapes of a definition choice need it. *)
#[warnings="-register-all"] Inductive Node : Type :=
  | Scalar (value : string)
  | Mapping (entries : list (Node * Node))
  | Sequence (items : list Node).

(** A stand-in for the YAML engine, which is outside the repository: a
    scalar decodes into a string, a mapping of scalars to scalars into a
    [map[string]string], a mapping of scalars to such mappings into a
    [map[string]DefinitionParameters]; anything else is a type error and
    leaves the destination as it was. *)
Definition decode_scalar (n : Node) : option string :=
  match n with
  | Scalar v => Some v
  | _ => None
  end.

Definition decode_entries {V : Type} (decode_value : Node -> option V)
  (entries : list (Node * Node)) (init : gmap string V)
  : option (gmap string V) :=
  fold_left
    (fun acc kv =>
       match acc, decode_scalar (fst kv), decode_value (snd kv) with
       | Some m, Some k, Some v => Some (<[k := v]> m)
       | _, _, _ => None
       end)
    entries (Some init).

Definition decode_parameters (n : Node) : option DefinitionParameters :=
  match n with
  | Mapping entries => Some (decode_entries decode_scalar entries ∅)
  | _ => None
  end.

Definition node_unmarshaler (n : Node) : Unmarshaler :=
  mkUnmarshaler
    (fun old =>
       match decode_scalar n with
       | Some v => (v, None)
       | None => (old, Some "cannot unmarshal into string")
       end)
    (fun old =>
       match n with
       | Mapping entries =>
           match decode_entries
                   (fun v => match decode_parameters v with
                             | Some (Some ps) => Some (Some ps)
                             | _ => None
                             end)
                   entries old with
           | Some m => (m, None)
           | None => (old, Some "cannot unmarshal into map")
           end
       | _ => (old, Some "cannot unmarshal into map")
       end).

End Types.

(** ** A small world for the examples *)

Module Sample.

(** [filepath.Join] of a directory that is empty or ends in a separator
    with a clean relative file name is their concatenation; the examples
    use no other arguments. *)
Definition Join (dir file : string) : string := dir ++ file.

Definition files : gmap string string :=
  list_to_map [
    ("api.raml",
     "#%RAML 0.8" ++ nl ++ "title: T" ++ nl ++
     "traits: !include traits.yaml" ++ nl);
    ("traits.yaml", "- a: 1" ++ nl ++ "  b: !include nested.yaml" ++ nl ++ "- c");
    ("trailing.raml", "#%RAML 0.8 and more" ++ nl ++ "title: T" ++ nl);
    ("bare.raml", "#%RAML 0.8");
    ("other.raml", "#%RAML 1.0" ++ nl ++ "title: T" ++ nl);
    ("broken.raml",
     "#%RAML 0.8" ++ nl ++ "title: T" ++ nl ++
     "schemas: !include missing.yaml" ++ nl ++ "version: 1" ++ nl);
    ("marker.raml", "#%RAML 0.8" ++ nl ++ "traits: !include" ++ nl) ].

Definition ReadFile (path : string) : string * error :=
  match files !! path with
  | Some contents => (contents, None)
  | None => ("", Some ("open " ++ path ++ ": no such file or directory"))
  end.

(** An engine that accepts every document and fills in nothing. *)
Definition Unmarshal (input : string) (out : APIDefinition unit)
  : APIDefinition unit * error := (out, None).

(** What follows the first line of [api.raml], and the file it includes. *)
Definition api_body : string :=
  "title: T" ++ nl ++ "traits: !include traits.yaml" ++ nl.

Definition traits_yaml : string :=
  "- a: 1" ++ nl ++ "  b: !include nested.yaml" ++ nl ++ "- c".

End Sample.

(** ** Notions used to state the properties *)

Module Spec.

(** Every line followed by a line feed. *)
Fixpoint unlines (ls : list string) : string :=
  match ls with
  | [] => ""
  | l :: ls' => l ++ nl ++ unlines ls'
  end.

(** Every line preceded by [ind] and followed by a line feed. *)
Fixpoint prefixed (ind : string) (ls : list string) : string :=
  match ls with
  | [] => ""
  | l :: ls' => ind ++ l ++ nl ++ prefixed ind ls'
  end.

(** Every line preceded by [c] spaces and followed by a line feed. *)
Definition indented (c : Z) (ls : list string) : string :=
  prefixed (Repeat " " c) ls.

(** The first line as it is, the others preceded by [c] spaces. *)
Definition reindent (c : Z) (ls : list string) : string :=
  match ls with
  | [] => ""
  | l :: ls' => l ++ nl ++ indented c ls'
  end.

(** The last byte of [s] is [c]. *)
Fixpoint ends_with (s : string) (c : ascii) : bool :=
  match s with
  | EmptyString => false
  | String a EmptyString => Ascii.eqb a c
  | String _ s' => ends_with s' c
  end.

(** A line that the scanner hands over unchanged: no line feed inside, no
    carriage return at its end, shorter than the scanner's limit. *)
Definition plain_line (l : string) : Prop :=
  Index l nl = -1 /\ ends_with l CR = false /\ len l < Bufio.MaxScanTokenSize.

(** No inclusion marker in the line. *)
Definition directive_free (l : string) : Prop := Index l "!include" = -1.

(** [ev] is the reading of the file that one of the lines [hosts] names
    after its marker, looked up from the directory [wd]. *)
Definition read_for_host (Join : string -> string -> string) (wd : string)
  (hosts : list string) (ev : Event) : Prop :=
  exists host f,
    In host hosts /\
    Index host "!include" <> -1 /\
    slice_from host (Index host "!include" + len "!include ") = ret f /\
    ev = EvReadFile (Join wd f).

(** The shape of a translated decode error. *)
Definition diagnostic (line destination observed category : string) : string :=
  "line " ++ line ++ ": " ++ destination ++ " cannot be of type " ++
  observed ++ ", must be " ++ category.

(** Every event is the reading of a file. *)
Definition only_reads (t : list Event) : Prop :=
  forall input, ~ In (EvUnmarshal input) t.

End Spec.

Import Spec.

(** ** The expansion of a document, as a function of the file system *)

Module Expansion.

(** All the strings of a list, one after the other. *)
Fixpoint flatten (ls : list string) : string :=
  match ls with
  | [] => ""
  | l :: ls' => l ++ flatten ls'
  end.

(** The line holds the inclusion marker. *)
Definition has_directive (line : string) : bool :=
  negb (Index line "!include" =? -1).

(** What follows the marker and one more byte: [line[idx+9:]]. *)
Definition included_file (line : string) : string :=
  drop (Z.to_nat (Index line "!include" + len "!include ")) line.

(** A line with the marker that [preProcess] expands: one byte at least
    follows the marker, the name after it is not empty, and the file of
    that name is read without error. *)
Definition resolvable (Join : string -> string -> string)
  (FS : string -> string * error) (wd line : string) : Prop :=
  Index line "!include" + len "!include " <= len line /\
  included_file line <> "" /\
  snd (FS (Join wd (included_file line))) = None.

Section World.

Variable Join : string -> string -> string.
Variable FS : string -> string * error.

(** What a host line becomes: itself and a line feed, or what precedes
    its marker and the re-indented lines of the file it names. *)
Definition expansion (wd line : string) : string :=
  if has_directive line then
    take (Z.to_nat (Index line "!include")) line ++
    reindent (Index line "!include")
             (fst (Bufio.Scanner (fst (FS (Join wd (included_file line))))))
  else line ++ nl.

Definition expansions (wd : string) (lines : list string) : string :=
  flatten (map (expansion wd) lines).

(** The readings of the files the lines with a marker name, in order. *)
Definition host_reads (wd : string) (lines : list string) : list Event :=
  map (fun line => EvReadFile (Join wd (included_file line)))
      (filter (fun line => has_directive line = true) lines).

End World.

End Expansion.

Import Expansion.

(** ** A second world for the examples *)

Module Fixtures.

Definition files : gmap string string :=
  list_to_map [
    ("main.raml",
     "#%RAML 0.8" ++ nl ++ "a: !include empty.yaml" ++ nl ++
     "b: !include two.yaml" ++ nl ++ "c: 3");
    ("empty.yaml", "");
    ("two.yaml", "x: 1" ++ nl ++ "y: 2" ++ nl) ].

Definition ReadFile (path : string) : string * error :=
  match files !! path with
  | Some contents => (contents, None)
  | None => ("", Some ("open " ++ path ++ ": no such file or directory"))
  end.

(** An engine that stores the length of its input in the document. *)
Definition Unmarshal (input : string) (out : APIDefinition Z)
  : APIDefinition Z * error :=
  (mkAPIDefinition (RAMLVersion out) (len input), None).

(** A line of [n] bytes [a]. *)
Definition long_line (n : Z) : string := Repeat "a" n.

End Fixtures.

(** ** The lines of a file, and a third world for the examples *)

Module Contents.

(** [contents] is made of the lines [lines], each ended by a line feed;
    the last one, when it is not empty, may lack its line feed. *)
Definition has_lines (contents : string) (lines : list string) : Prop :=
  contents = unlines lines \/
  exists init last,
    lines = (init ++ [last])%list /\ last <> "" /\
    contents = unlines init ++ last.

(** What precedes the line that follows the lines [pre] in a re-indented
    file: nothing for the first line, else the lines [pre] re-indented and
    [c] spaces. *)
Definition reindent_before (c : Z) (pre : list string) : string :=
  match pre with
  | [] => ""
  | _ => reindent c pre ++ Repeat " " c
  end.

(** The reading of the file [f] from the directory [wd] fails: [f] is
    empty and nothing is read, or the file system reports an error [e] for
    the joined path; [t] are the readings attempted and [cause] the text
    of the failure. *)
Definition read_failure (Join : string -> string -> string)
  (FS : string -> string * error) (wd f : string)
  (t : list Event) (cause : string) : Prop :=
  (f = "" /\ t = [] /\ cause = "File name cannot be nil: " ++ Join wd f) \/
  (f <> "" /\ t = [EvReadFile (Join wd f)] /\
   exists cts e,
     FS (Join wd f) = (cts, Some e) /\
     cause = "Could not read file " ++ Join wd f ++ " (Error: " ++ e ++ ")").

End Contents.

Import Contents.

Module Cases.

Definition files : gmap string string :=
  list_to_map [
    ("two.yaml", "x: 1" ++ nl ++ "y: 2" ++ nl);
    ("crlf.yaml", "x: 1" ++ String CR nl ++ "y: 2" ++ String CR nl);
    ("long.yaml",
     unlines ["x: 1"] ++ Fixtures.long_line 65536 ++ nl ++
     "k: !include two.yaml" ++ nl);
    ("nested.yaml", "k: !include two.yaml" ++ nl);
    ("version.raml", "#%RAML 0.8 !include missing.yaml" ++ nl) ].

Definition ReadFile (path : string) : string * error :=
  match files !! path with
  | Some contents => (contents, None)
  | None => ("", Some ("open " ++ path ++ ": no such file or directory"))
  end.

End Cases.

(** * Properties *)

(** ** Strings *)

Module StringFacts.

Lemma app_cons (c : ascii) (s t : string) : String c s ++ t = String c (s ++ t).
Proof. reflexivity. Qed.

Lemma app_nil_l (s : string) : "" ++ s = s.
Proof. reflexivity. Qed.

Lemma app_nil_r (s : string) : s ++ "" = s.
Proof. induction s as [|c s IH]; [reflexivity|]. now rewrite app_cons, IH. Qed.

Lemma app_assoc (a b c : string) : (a ++ b) ++ c = a ++ b ++ c.
Proof.
  induction a as [|x a IH]; [reflexivity|].
  now rewrite !app_cons, IH.
Qed.

Lemma len_app (a b : string) : len (a ++ b) = len a + len b.
Proof.
  unfold len. induction a as [|x a IH]; [rewrite app_nil_l; simpl; lia|].
  rewrite app_cons. simpl String.length. lia.
Qed.

Lemma len_nonneg (s : string) : 0 <= len s.
Proof. unfold len. lia. Qed.

Lemma take_drop (n : nat) (s : string) : take n s ++ drop n s = s.
Proof.
  revert s. induction n as [|n IH]; intros [|c s]; try reflexivity.
  simpl take. simpl drop. now rewrite app_cons, IH.
Qed.

Lemma take_all (s : string) : take (String.length s) s = s.
Proof. induction s as [|c s IH]; [reflexivity|]. simpl. now rewrite IH. Qed.

Lemma len_repeat_space (n : Z) : 0 <= n -> len (Repeat " " n) = n.
Proof.
  intros Hn. unfold Repeat. rewrite <- (Z2Nat.id n) at 2 by exact Hn.
  generalize (Z.to_nat n) as k. clear. intros k.
  induction k as [|k IH]; [reflexivity|].
  simpl repeat_nat. rewrite len_app, IH. unfold len. simpl String.length. lia.
Qed.

Lemma HasPrefix_nil (s : string) : HasPrefix s "" = true.
Proof. destruct s; reflexivity. Qed.

(** [strings.Index] is -1 exactly when there is no occurrence. *)
Lemma Index_none (s substr : string) :
  Index s substr = -1 <-> index_nat s substr = None.
Proof.
  unfold Index. destruct (index_nat s substr); split; intros H; try reflexivity;
    try discriminate; lia.
Qed.

Lemma Index_some (s substr : string) (n : nat) :
  index_nat s substr = Some n -> Index s substr = Z.of_nat n.
Proof. unfold Index. now intros ->. Qed.

Lemma Index_range (s substr : string) : -1 <= Index s substr.
Proof. unfold Index. destruct (index_nat s substr); lia. Qed.

Lemma HasPrefix_length (s p : string) :
  HasPrefix s p = true -> (String.length p <= String.length s)%nat.
Proof.
  revert s. induction p as [|a p IH]; intros s H; simpl; [lia|].
  destruct s as [|b s]; [discriminate|]. simpl in H |- *.
  destruct (Ascii.eqb b a); [|discriminate]. apply IH in H. lia.
Qed.

Lemma index_nat_unfold (s substr : string) :
  index_nat s substr =
  if HasPrefix s substr then Some O
  else match s with
       | EmptyString => None
       | String _ s' => option_map S (index_nat s' substr)
       end.
Proof. destruct s; reflexivity. Qed.

(** An occurrence lies inside the string. *)
Lemma index_nat_bound (s substr : string) (n : nat) :
  index_nat s substr = Some n ->
  (n + String.length substr <= String.length s)%nat.
Proof.
  revert n. induction s as [|c s IH]; intros n H; rewrite index_nat_unfold in H;
    destruct (HasPrefix _ substr) eqn:Hp; try discriminate.
  - apply HasPrefix_length in Hp. simplify_eq. lia.
  - apply HasPrefix_length in Hp. simplify_eq. lia.
  - destruct (index_nat s substr) as [m|] eqn:Hm; simpl in H; [|discriminate].
    simplify_eq. specialize (IH m eq_refl). simpl. lia.
Qed.

Lemma Index_bound (s substr : string) :
  Index s substr <> -1 ->
  0 <= Index s substr /\ Index s substr + len substr <= len s.
Proof.
  unfold Index, len. destruct (index_nat s substr) as [n|] eqn:Hn; [|congruence].
  intros _. apply index_nat_bound in Hn. lia.
Qed.

(** A string without line feed, seen through [strings.Index]. *)
Lemma Index_nl_cons (c : ascii) (s : string) :
  Index (String c s) nl = -1 <-> Ascii.eqb c LF = false /\ Index s nl = -1.
Proof.
  rewrite !Index_none. rewrite (index_nat_unfold (String c s)).
  change (HasPrefix (String c s) nl)
    with (if Ascii.eqb c LF then HasPrefix s "" else false).
  rewrite HasPrefix_nil.
  destruct (Ascii.eqb c LF).
  - split; [discriminate|]. intros [? _]. discriminate.
  - destruct (index_nat s nl); simpl; split; intros H; try discriminate;
      try (destruct H; discriminate); auto.
Qed.

Lemma HasPrefix_take (s p : string) :
  HasPrefix s p = true <-> take (String.length p) s = p.
Proof.
  revert s. induction p as [|a p IH]; intros s.
  - rewrite HasPrefix_nil. split; intros _; [now destruct s|reflexivity].
  - destruct s as [|b s]; simpl; [split; discriminate|].
    destruct (Ascii.eqb_spec b a) as [->|Hne].
    + rewrite IH. split; [now intros ->|now intros [= ->]].
    + split; [discriminate|]. intros [= ? _]. contradiction.
Qed.

Lemma ReadString_no_delim (s : string) :
  Index s nl = -1 -> ReadString s LF = (s, EmptyString, Some "EOF").
Proof.
  induction s as [|c s IH]; intros H; [reflexivity|].
  apply Index_nl_cons in H as [Hc Hs]. simpl. now rewrite Hc, (IH Hs).
Qed.

End StringFacts.

Import StringFacts.

(** ** The scanner *)

Module ScannerFacts.

Lemma raw_lines_line (l rest : string) :
  Index l nl = -1 -> Bufio.raw_lines (l ++ nl ++ rest) = l :: Bufio.raw_lines rest.
Proof.
  induction l as [|c l IH]; intros H.
  - reflexivity.
  - apply Index_nl_cons in H as [Hc Hl].
    rewrite app_cons. simpl Bufio.raw_lines. rewrite Hc, (IH Hl). reflexivity.
Qed.

Lemma raw_lines_unlines (ls : list string) :
  Forall (fun l => Index l nl = -1) ls -> Bufio.raw_lines (unlines ls) = ls.
Proof.
  induction 1 as [|l ls Hl _ IH]; [reflexivity|].
  simpl unlines. now rewrite raw_lines_line, IH.
Qed.

Lemma dropCR_id (l : string) : ends_with l CR = false -> Bufio.dropCR l = l.
Proof.
  induction l as [|c l IH]; [reflexivity|].
  destruct l as [|d l].
  - simpl. now intros ->.
  - intros H. change (Bufio.dropCR (String c (String d l)))
      with (String c (Bufio.dropCR (String d l))).
    now rewrite IH.
Qed.

Lemma scan_plain (ls : list string) :
  Forall plain_line ls -> Bufio.scan ls = (ls, None).
Proof.
  induction 1 as [|l ls (_ & Hcr & Hlen) _ IH]; [reflexivity|].
  simpl. destruct (Bufio.MaxScanTokenSize <=? len l) eqn:E.
  - apply Z.leb_le in E. lia.
  - now rewrite IH, dropCR_id.
Qed.

(** A text made of plain lines, each ended by a line feed, is scanned into
    these very lines, without error. *)
Lemma Scanner_unlines (ls : list string) :
  Forall plain_line ls -> Bufio.Scanner (unlines ls) = (ls, None).
Proof.
  intros H. unfold Bufio.Scanner. rewrite raw_lines_unlines.
  - now apply scan_plain.
  - eapply Forall_impl; [exact H|]. now intros l (? & _).
Qed.

End ScannerFacts.

Import ScannerFacts.

(** ** The trace monad and Go's slices *)

Module MonadFacts.

Lemma bind_ret_l {A B} (a : A) (k : A -> M B) : bind (ret a) k = k a.
Proof. unfold bind, ret. now destruct (k a). Qed.

Lemma bind_panic {A B} (msg : string) (k : A -> M B) :
  bind (panic msg) k = panic msg.
Proof. reflexivity. Qed.

Lemma bind_returned {A B} (t : list Event) (a : A) (k : A -> M B) :
  bind (t, Returned a) k = ((t ++ trace (k a))%list, outcome (k a)).
Proof. unfold bind, trace, outcome. now destruct (k a). Qed.

Lemma bind_panicked {A B} (t : list Event) (msg : string) (k : A -> M B) :
  bind (t, Panicked msg) k = (t, Panicked msg).
Proof. reflexivity. Qed.

Lemma bind_ext {A B} (m : M A) (k1 k2 : A -> M B) :
  (forall a, k1 a = k2 a) -> bind m k1 = bind m k2.
Proof. intros H. destruct m as [t [a|msg]]; simpl; [now rewrite H|reflexivity]. Qed.

Lemma trace_bind {A B} (m : M A) (k : A -> M B) :
  trace (bind m k) =
  (trace m ++ match outcome m with
              | Returned a => trace (k a)
              | Panicked _ => []
              end)%list.
Proof.
  destruct m as [t [a|msg]]; simpl.
  - unfold trace. now destruct (k a).
  - now rewrite List.app_nil_r.
Qed.

Lemma slice_to_ok (s : string) (hi : Z) :
  0 <= hi <= len s -> slice_to s hi = ret (take (Z.to_nat hi) s).
Proof.
  intros [H0 H1]. unfold slice_to, slice.
  replace (0 <=? 0) with true by reflexivity.
  rewrite (proj2 (Z.leb_le 0 hi) H0), (proj2 (Z.leb_le hi (len s)) H1).
  simpl. now rewrite Z.sub_0_r.
Qed.

Lemma slice_from_ok (s : string) (lo : Z) :
  0 <= lo <= len s ->
  slice_from s lo = ret (take (Z.to_nat (len s - lo)) (drop (Z.to_nat lo) s)).
Proof.
  intros [H0 H1]. unfold slice_from, slice.
  rewrite (proj2 (Z.leb_le 0 lo) H0), (proj2 (Z.leb_le lo (len s)) H1).
  now rewrite Z.leb_refl.
Qed.

Lemma slice_from_panics (s : string) (lo : Z) :
  len s < lo ->
  slice_from s lo = panic "runtime error: slice bounds out of range".
Proof.
  intros H. unfold slice_from, slice.
  rewrite (proj2 (Z.leb_gt lo (len s)) H).
  now rewrite andb_false_r.
Qed.

Lemma slice_from_cases (s : string) (lo : Z) :
  (exists x, slice_from s lo = ret x) \/
  slice_from s lo = panic "runtime error: slice bounds out of range".
Proof. unfold slice_from, slice. destruct (_ && _); eauto. Qed.

(** Runs the monadic steps of a hypothesis whose calls have been resolved. *)
Ltac run_in H :=
  repeat first
    [ rewrite bind_returned in H
    | progress (unfold ret, outcome, trace, emit in H)
    | progress (cbn [fst snd] in H) ].

End MonadFacts.

Import MonadFacts.

(** ** More on strings, slices and the scanner *)

Module MoreFacts.

Lemma length_drop (n : nat) (s : string) :
  String.length (drop n s) = (String.length s - n)%nat.
Proof.
  revert s. induction n as [|n IH]; intros [|c s]; simpl; try lia. apply IH.
Qed.

Lemma take_ge (n : nat) (s : string) :
  (String.length s <= n)%nat -> take n s = s.
Proof.
  revert s. induction n as [|n IH]; intros [|c s] H; simpl in *; try reflexivity;
    try lia.
  f_equal. apply IH. lia.
Qed.

Lemma drop_app_length (a b : string) : drop (String.length a) (a ++ b) = b.
Proof. induction a as [|c a IH]; [now destruct b|]. rewrite app_cons. exact IH. Qed.

Lemma take_app_length (a b : string) : take (String.length a) (a ++ b) = a.
Proof.
  induction a as [|c a IH]; [now destruct b|].
  rewrite app_cons. simpl. now rewrite IH.
Qed.

Lemma drop_all (s : string) : drop (String.length s) s = "".
Proof. induction s as [|c s IH]; [reflexivity|]. exact IH. Qed.

(** [s[lo:]] within bounds is [s] without its first [lo] bytes. *)
Lemma slice_from_drop (s : string) (lo : Z) :
  0 <= lo <= len s -> slice_from s lo = ret (drop (Z.to_nat lo) s).
Proof.
  intros H. rewrite slice_from_ok by exact H. f_equal.
  apply take_ge. rewrite length_drop. unfold len in *. lia.
Qed.

Lemma slice_from_inv (s f : string) (lo : Z) :
  slice_from s lo = ret f -> 0 <= lo <= len s /\ f = drop (Z.to_nat lo) s.
Proof.
  intros H.
  destruct (Z_le_dec 0 lo) as [H0|H0]; [destruct (Z_le_dec lo (len s)) as [H1|H1]|].
  - rewrite slice_from_drop in H by lia. split; [lia|]. now injection H.
  - rewrite slice_from_panics in H by lia. discriminate.
  - unfold slice_from, slice in H.
    rewrite (proj2 (Z.leb_gt 0 lo)) in H by lia. discriminate.
Qed.

Lemma Index_nl_app (a b : string) :
  Index (a ++ b) nl = -1 <-> Index a nl = -1 /\ Index b nl = -1.
Proof.
  induction a as [|c a IH].
  - rewrite app_nil_l. split; [now split|now intros [_ ?]].
  - rewrite app_cons, !Index_nl_cons, IH. tauto.
Qed.

Lemma len_cons (c : ascii) (s : string) : len (String c s) = 1 + len s.
Proof. unfold len. simpl String.length. lia. Qed.

(** A last line without line feed is a line of its own. *)
Lemma raw_lines_last (l : string) :
  l <> "" -> Index l nl = -1 -> Bufio.raw_lines l = [l].
Proof.
  induction l as [|c l IH]; intros Hne H; [contradiction|].
  apply Index_nl_cons in H as [Hc Hl]. simpl. rewrite Hc.
  destruct l as [|d l]; [reflexivity|].
  rewrite IH; [reflexivity|discriminate|exact Hl].
Qed.

Lemma raw_lines_unlines_app (ls : list string) (rest : string) :
  Forall (fun l => Index l nl = -1) ls ->
  Bufio.raw_lines (unlines ls ++ rest) = (ls ++ Bufio.raw_lines rest)%list.
Proof.
  induction 1 as [|l ls Hl _ IH]; [reflexivity|].
  simpl unlines. rewrite !app_assoc, raw_lines_line by exact Hl.
  now rewrite IH.
Qed.

Lemma dropCR_snoc (l : string) : Bufio.dropCR (l ++ String CR "") = l.
Proof.
  induction l as [|c l IH]; [reflexivity|].
  rewrite app_cons. destruct l as [|d l].
  - reflexivity.
  - rewrite app_cons in IH |- *.
    change (Bufio.dropCR (String c (String d (l ++ String CR ""))))
      with (String c (Bufio.dropCR (String d (l ++ String CR "")))).
    now rewrite IH.
Qed.

Lemma unlines_app (a b : list string) :
  unlines (a ++ b) = unlines a ++ unlines b.
Proof.
  induction a as [|l a IH]; [reflexivity|].
  simpl. now rewrite IH, !app_assoc.
Qed.

Lemma filepath_Split_trailing_separator (dir : string) :
  filepath_Split (dir ++ "/") = (dir ++ "/", "").
Proof.
  induction dir as [|c dir IH]; [reflexivity|].
  rewrite app_cons. simpl. rewrite IH.
  destruct (Ascii.eqb c "/"); [reflexivity|].
  destruct dir; reflexivity.
Qed.

Lemma scan_app (before more : list string) :
  Forall plain_line before ->
  Bufio.scan (before ++ more) =
  ((before ++ fst (Bufio.scan more))%list, snd (Bufio.scan more)).
Proof.
  induction 1 as [|l ls (_ & Hcr & Hlen) _ IH]; simpl.
  - now destruct (Bufio.scan more).
  - destruct (Bufio.MaxScanTokenSize <=? len l) eqn:E;
      [apply Z.leb_le in E; lia|].
    rewrite IH. now rewrite dropCR_id.
Qed.

Lemma scan_long (long : string) (more : list string) :
  Bufio.MaxScanTokenSize <= len long ->
  Bufio.scan (long :: more) = ([], Some Bufio.ErrTooLong).
Proof. intros H. simpl. now rewrite (proj2 (Z.leb_le _ _) H). Qed.

Lemma scan_crlf (ls : list string) :
  Forall (fun l => len l + 1 < Bufio.MaxScanTokenSize) ls ->
  Bufio.scan (map (fun l => l ++ String CR "") ls) = (ls, None).
Proof.
  induction 1 as [|l ls Hlen _ IH]; [reflexivity|].
  simpl. rewrite len_app.
  destruct (Bufio.MaxScanTokenSize <=? len l + len (String CR "")) eqn:E.
  - apply Z.leb_le in E. change (len (String CR "")) with 1 in E. lia.
  - now rewrite IH, dropCR_snoc.
Qed.

(** *** Occurrences of a substring *)

Lemma HasPrefix_app (s p : string) :
  HasPrefix s p = true -> s = p ++ drop (String.length p) s.
Proof.
  revert s. induction p as [|a p IH]; intros s H.
  - now destruct s.
  - destruct s as [|b s]; [discriminate|]. simpl in H.
    destruct (Ascii.eqb_spec b a) as [->|]; [|discriminate].
    rewrite app_cons. simpl. f_equal. now apply IH.
Qed.

Lemma HasPrefix_app_refl (p b : string) : HasPrefix (p ++ b) p = true.
Proof.
  induction p as [|a p IH]; [apply HasPrefix_nil|].
  rewrite app_cons. simpl. now rewrite Ascii.eqb_refl.
Qed.

(** The first occurrence cuts the string in three. *)
Lemma index_nat_split (s m : string) (n : nat) :
  index_nat s m = Some n ->
  s = take n s ++ m ++ drop (n + String.length m) s.
Proof.
  revert n. induction s as [|c s IH]; intros n H; rewrite index_nat_unfold in H;
    destruct (HasPrefix _ m) eqn:Hp; try discriminate.
  - simplify_eq. now apply HasPrefix_app in Hp.
  - simplify_eq. now apply HasPrefix_app in Hp.
  - destruct (index_nat s m) as [k|] eqn:Hk; simpl in H; [|discriminate].
    simplify_eq. simpl. rewrite app_cons. f_equal. now apply IH.
Qed.

Lemma Index_split (s m : string) :
  Index s m <> -1 ->
  s = take (Z.to_nat (Index s m)) s ++ m ++
      drop (Z.to_nat (Index s m + len m)) s.
Proof.
  unfold Index, len. destruct (index_nat s m) as [n|] eqn:Hn; [|congruence].
  intros _. rewrite Nat2Z.id.
  replace (Z.to_nat (Z.of_nat n + Z.of_nat (String.length m)))
    with (n + String.length m)%nat by lia.
  now apply index_nat_split.
Qed.

Lemma index_nat_app_some (a m b : string) : index_nat (a ++ m ++ b) m <> None.
Proof.
  induction a as [|c a IH]; rewrite index_nat_unfold.
  - rewrite app_nil_l, HasPrefix_app_refl. discriminate.
  - destruct (HasPrefix _ m); [discriminate|].
    rewrite app_cons. destruct (index_nat (a ++ m ++ b) m); [discriminate|].
    contradiction.
Qed.

(** An occurrence stays one inside a longer string. *)
Lemma Index_context (a s b m : string) :
  Index s m <> -1 -> Index (a ++ s ++ b) m <> -1.
Proof.
  intros H. pose proof (Index_split s m H) as E. rewrite E.
  replace (a ++ (take (Z.to_nat (Index s m)) s ++ m ++
                 drop (Z.to_nat (Index s m + len m)) s) ++ b)
    with ((a ++ take (Z.to_nat (Index s m)) s) ++ m ++
          (drop (Z.to_nat (Index s m + len m)) s ++ b))
    by now rewrite !app_assoc.
  rewrite Index_none. apply index_nat_app_some.
Qed.

(** *** Files given by their lines *)

Lemma Scanner_has_lines (contents : string) (lines : list string) :
  has_lines contents lines ->
  Forall plain_line lines ->
  Bufio.Scanner contents = (lines, None).
Proof.
  intros [->|(init & last & -> & Hne & ->)] Hplain.
  - now apply Scanner_unlines.
  - apply Forall_app in Hplain as [Hinit Hlast].
    apply Forall_cons in Hlast as [Hlast _].
    unfold Bufio.Scanner. rewrite raw_lines_unlines_app.
    + rewrite raw_lines_last; [|exact Hne|apply Hlast].
      apply scan_plain. apply Forall_app. split; [exact Hinit|].
      constructor; [exact Hlast|constructor].
    + eapply Forall_impl; [exact Hinit|]. now intros l (? & _).
Qed.

(** The scan of a text stops, with an error, at its first line of
    [MaxScanTokenSize] bytes or more. *)
Lemma Scanner_cut_at_long_line (firsts : list string) (long rest : string) :
  Forall plain_line firsts ->
  Index long nl = -1 ->
  Bufio.MaxScanTokenSize <= len long ->
  Bufio.Scanner (unlines firsts ++ long ++ nl ++ rest)
  = (firsts, Some Bufio.ErrTooLong).
Proof.
  intros Hplain Hnl Hlen. unfold Bufio.Scanner. rewrite raw_lines_unlines_app.
  - rewrite raw_lines_line by exact Hnl.
    rewrite scan_app by exact Hplain. rewrite scan_long by exact Hlen.
    simpl. now rewrite List.app_nil_r.
  - eapply Forall_impl; [exact Hplain|]. now intros l (? & _).
Qed.

Lemma prefixed_app (ind : string) (a b : list string) :
  prefixed ind (a ++ b) = prefixed ind a ++ prefixed ind b.
Proof.
  induction a as [|l a IH]; [reflexivity|].
  simpl. now rewrite IH, !app_assoc.
Qed.

Lemma reindent_middle (c : Z) (L : string) (pre post : list string) :
  reindent c (pre ++ L :: post)
  = reindent_before c pre ++ L ++ nl ++ indented c post.
Proof.
  destruct pre as [|p ps]; [reflexivity|].
  simpl. unfold indented. rewrite prefixed_app. simpl.
  now rewrite !app_assoc.
Qed.

Lemma flatten_app (a b : list string) : flatten (a ++ b) = flatten a ++ flatten b.
Proof.
  induction a as [|l a IH]; [reflexivity|].
  simpl. now rewrite IH, app_assoc.
Qed.

End MoreFacts.

Import MoreFacts.

(** ** The preprocessor *)

Section ParserFacts.

Context {Fields : Type} (zeroFields : Fields).
Variable Join : string -> string -> string.
Variable FS : string -> string * error.
Variable Dec : string -> APIDefinition Fields -> APIDefinition Fields * error.

Local Abbreviation readFileContents' := (readFileContents Join FS).
Local Abbreviation preProcess_line' := (preProcess_line Join FS).
Local Abbreviation preProcess_loop' := (preProcess_loop Join FS).
Local Abbreviation preProcess' := (preProcess Join FS).
Local Abbreviation ParseFile' := (ParseFile zeroFields Join FS Dec).

(** [readFileContents] never panics; it reads at most the one file it is
    asked for, and it reads it whenever it returns contents. *)
Lemma readFileContents_cases (wd f : string) :
  (f = "" /\
   readFileContents' wd f =
     ([], Returned ("", Some ("File name cannot be nil: " ++ Join wd f)))) \/
  (f <> "" /\ exists r,
   trace (readFileContents' wd f) = [EvReadFile (Join wd f)] /\
   outcome (readFileContents' wd f) = Returned r /\
   (snd r = None -> r = (fst (FS (Join wd f)), None) /\ snd (FS (Join wd f)) = None)).
Proof.
  unfold readFileContents. destruct (String.eqb_spec f "") as [->|Hne].
  - left. split; reflexivity.
  - right. split; [exact Hne|]. unfold ReadFile.
    destruct (FS (Join wd f)) as [cts [e|]] eqn:E; simpl;
      eexists; repeat split; simpl; try reflexivity; try discriminate.
    all: rewrite E; simpl; try reflexivity; discriminate.
Qed.

Lemma readFileContents_ok_trace (wd f : string) t cts :
  readFileContents' wd f = (t, Returned (cts, None)) ->
  t = [EvReadFile (Join wd f)].
Proof.
  intros H. destruct (readFileContents_cases wd f) as [[_ E]|(_ & r & Ht & _)].
  - rewrite E in H. discriminate.
  - rewrite H in Ht. exact Ht.
Qed.

(** The inner loop of [preProcess] in closed form. *)
Lemma include_loop_rest (idx : Z) (ind : string) (ls : list string) (buf : string) :
  fold_left (include_step idx) ls (buf, false, ind)
  = (buf ++ prefixed ind ls, false, ind).
Proof.
  revert buf. induction ls as [|l ls IH]; intros buf; simpl.
  - now rewrite app_nil_r.
  - rewrite IH. now rewrite !app_assoc.
Qed.

Lemma write_included_eq (idx : Z) (contents buf : string) :
  write_included idx contents buf
  = buf ++ reindent idx (fst (Bufio.Scanner contents)).
Proof.
  unfold write_included. destruct (fst (Bufio.Scanner contents)) as [|l ls]; simpl.
  - now rewrite app_nil_r.
  - rewrite include_loop_rest. simpl. unfold indented.
    now rewrite app_nil_r, !app_assoc.
Qed.

(** One turn of the outer loop on a line without marker. *)
Lemma preProcess_line_plain (wd buf line : string) :
  directive_free line ->
  preProcess_line' wd buf line = ret (Next (buf ++ line ++ nl)).
Proof. unfold directive_free, preProcess_line. now intros ->. Qed.

(** One turn of the outer loop on a line with the marker, once the name of
    the file has been cut out. *)
Lemma preProcess_line_directive (wd buf line f : string) :
  Index line "!include" <> -1 ->
  slice_from line (Index line "!include" + len "!include ") = ret f ->
  preProcess_line' wd buf line =
  bind (readFileContents' wd f) (fun r =>
    match snd r with
    | Some e =>
        ret (Return ("", Some ("Error including file " ++ f ++
                               ":" ++ nl ++ "    " ++ e)))
    | None =>
        ret (Next (buf ++ take (Z.to_nat (Index line "!include")) line ++
                   reindent (Index line "!include")
                            (fst (Bufio.Scanner (fst r)))))
    end).
Proof.
  intros Hidx Hf. unfold preProcess_line.
  rewrite (proj2 (Z.eqb_neq _ _) Hidx). cbv zeta. simpl negb. cbv iota.
  rewrite Hf, bind_ret_l.
  rewrite slice_to_ok.
  2:{ pose proof (Index_bound line "!include" Hidx) as [? ?].
      pose proof (len_nonneg "!include"). lia. }
  rewrite bind_ret_l. apply bind_ext.
  intros [cts [e|]]; simpl; [reflexivity|].
  now rewrite write_included_eq, app_assoc.
Qed.

(** One turn of the outer loop on a line with the marker and nothing after
    it. *)
Lemma preProcess_line_panics (wd buf line msg : string) :
  Index line "!include" <> -1 ->
  slice_from line (Index line "!include" + len "!include ") = panic msg ->
  preProcess_line' wd buf line = panic msg.
Proof.
  intros Hidx Hf. unfold preProcess_line.
  rewrite (proj2 (Z.eqb_neq _ _) Hidx). cbv zeta. simpl negb. cbv iota.
  now rewrite Hf, bind_panic.
Qed.

(** A turn of the loop only appends to the buffer. *)
Lemma preProcess_line_extends (wd buf line : string) t buf' :
  preProcess_line' wd buf line = (t, Returned (Next buf')) ->
  exists tail, buf' = buf ++ tail.
Proof.
  intros H. destruct (Z.eq_dec (Index line "!include") (-1)) as [E|E].
  - rewrite preProcess_line_plain in H by exact E.
    injection H as _ <-. eauto.
  - destruct (slice_from_cases line (Index line "!include" + len "!include "))
      as [[f Hf]|Hf].
    + rewrite (preProcess_line_directive wd buf line f E Hf) in H.
      destruct (readFileContents' wd f) as [t2 [[cts [e|]]|msg]]; simpl in H;
        try discriminate.
      injection H as _ <-. eauto.
    + rewrite (preProcess_line_panics wd buf line _ E Hf) in H. discriminate.
Qed.

Lemma preProcess_loop_extends (wd : string) (ls : list string) :
  forall buf t buf',
    preProcess_loop' wd ls buf = (t, Returned (Next buf')) ->
    exists tail, buf' = buf ++ tail.
Proof.
  induction ls as [|l ls IH]; intros buf t buf' H; simpl in H.
  - injection H as _ <-. exists "". now rewrite app_nil_r.
  - destruct (preProcess_line' wd buf l) as [t1 [[b|r]|msg]] eqn:Hl;
      try discriminate.
    rewrite bind_returned in H.
    destruct (preProcess_loop' wd ls b) as [t2 o] eqn:Hr.
    simpl in H. injection H as _ ->.
    apply preProcess_line_extends in Hl as [x ->].
    apply IH in Hr as [y ->]. exists (x ++ y). now rewrite app_assoc.
Qed.

(** The loop over [before ++ after] is the loop over [before] followed by
    the loop over [after], when the first one runs to its end. *)
Lemma preProcess_loop_app (wd : string) (before after : list string) :
  forall buf t buf',
    preProcess_loop' wd before buf = (t, Returned (Next buf')) ->
    preProcess_loop' wd (before ++ after) buf =
    ((t ++ trace (preProcess_loop' wd after buf'))%list,
     outcome (preProcess_loop' wd after buf')).
Proof.
  induction before as [|l ls IH]; intros buf t buf' H; simpl in H.
  - injection H as <- <-. simpl. now destruct (preProcess_loop' wd after buf).
  - simpl. destruct (preProcess_line' wd buf l) as [t1 [[b|r]|msg]] eqn:Hl;
      try discriminate.
    rewrite bind_returned in H |- *.
    destruct (preProcess_loop' wd ls b) as [t2 o] eqn:Hr.
    simpl in H. injection H as <- ->.
    rewrite (IH _ _ _ Hr). simpl. now rewrite List.app_assoc.
Qed.

(** The loop over lines without marker copies them. *)
Lemma preProcess_loop_plain (wd : string) (ls : list string) :
  Forall directive_free ls ->
  forall buf, preProcess_loop' wd ls buf = ret (Next (buf ++ unlines ls)).
Proof.
  induction 1 as [|l ls Hl _ IH]; intros buf; simpl.
  - now rewrite app_nil_r.
  - rewrite preProcess_line_plain by exact Hl.
    rewrite bind_ret_l, IH. now rewrite !app_assoc.
Qed.

(** A return from inside the loop carries an error and a nil buffer. *)
Lemma preProcess_loop_return_error (wd : string) (ls : list string) :
  forall buf t out err,
    preProcess_loop' wd ls buf = (t, Returned (Return (out, err))) ->
    out = "" /\ err <> None.
Proof.
  induction ls as [|l ls IH]; intros buf t out err H; simpl in H.
  - discriminate.
  - destruct (Z.eq_dec (Index l "!include") (-1)) as [E|E].
    + rewrite preProcess_line_plain in H by exact E.
      rewrite bind_ret_l in H. eauto.
    + destruct (slice_from_cases l (Index l "!include" + len "!include "))
        as [[f Hf]|Hf].
      * rewrite (preProcess_line_directive wd buf l f E Hf) in H.
        destruct (readFileContents' wd f) as [t3 [[cts [e|]]|msg]];
          simpl in H; try discriminate.
        -- simplify_eq. split; [reflexivity|discriminate].
        -- destruct (preProcess_loop' wd ls _) as [t4 o] eqn:Hls.
           simpl in H. simplify_eq. eauto.
      * rewrite (preProcess_line_panics wd buf l _ E Hf) in H. discriminate.
Qed.

(** The loop at a given line, when the lines before it ran to their end. *)
Lemma preProcess_loop_at (wd : string) (before after : list string)
  (line buf : string) t0 buf0 :
  preProcess_loop' wd before buf = (t0, Returned (Next buf0)) ->
  preProcess_loop' wd (before ++ line :: after)%list buf =
  bind (t0, Returned tt) (fun _ =>
    bind (preProcess_line' wd buf0 line) (fun st =>
      match st with
      | Next b => preProcess_loop' wd after b
      | Return r => ret (Return r)
      end)).
Proof.
  intros H. rewrite (preProcess_loop_app wd before (line :: after) _ _ _ H).
  rewrite bind_returned. reflexivity.
Qed.

(** A document without directive comes out as its scanned lines, each
    ended by a line feed; nothing is read. *)
Lemma preProcess_directive_free (doc wd : string) :
  Forall directive_free (fst (Bufio.Scanner doc)) ->
  preProcess' doc wd =
  ret (match snd (Bufio.Scanner doc) with
       | Some e => ("", Some ("Error reading YAML file: " ++ e))
       | None => (unlines (fst (Bufio.Scanner doc)), None)
       end).
Proof.
  intros H. unfold preProcess.
  destruct (Bufio.Scanner doc) as [ls scanErr]. simpl in H |- *.
  rewrite preProcess_loop_plain by exact H.
  rewrite bind_ret_l. now destruct scanErr.
Qed.

(** C2 (amended): for every document made of lines that each end with a
    line feed, hold no inclusion marker, do not end with a carriage return
    and are shorter than the scanner's limit of 65536 bytes, [preProcess]
    returns the document byte for byte, with a nil error, and reads no
    file. *)
Theorem C2_identity_on_newline_terminated_documents (wd : string) (ls : list string) :
  Forall plain_line ls ->
  Forall directive_free ls ->
  preProcess' (unlines ls) wd = ret (unlines ls, None).
Proof.
  intros Hplain Hfree.
  rewrite preProcess_directive_free; rewrite (Scanner_unlines ls Hplain);
    [reflexivity | exact Hfree].
Qed.

Lemma prefixed_contains (ind L : string) (ls : list string) :
  In L ls -> exists pre post, prefixed ind ls = pre ++ L ++ nl ++ post.
Proof.
  induction ls as [|l ls IH]; intros H; [contradiction|].
  destruct H as [->|H].
  - exists ind, (prefixed ind ls). reflexivity.
  - destruct (IH H) as (pre & post & E).
    exists (ind ++ l ++ nl ++ pre), post. simpl. rewrite E.
    now rewrite !app_assoc.
Qed.

Lemma reindent_contains (c : Z) (L : string) (ls : list string) :
  In L ls -> exists pre post, reindent c ls = pre ++ L ++ nl ++ post.
Proof.
  destruct ls as [|l ls]; intros H; [contradiction|].
  destruct H as [->|H].
  - exists "", (indented c ls). reflexivity.
  - destruct (prefixed_contains (Repeat " " c) L ls H) as (pre & post & E).
    exists (l ++ nl ++ pre), post. simpl. unfold indented. rewrite E.
    now rewrite !app_assoc.
Qed.

(** The only files the loop reads are those its own lines name. *)
Lemma preProcess_loop_reads (wd : string) (ls : list string) :
  forall buf,
    Forall (read_for_host Join wd ls) (trace (preProcess_loop' wd ls buf)).
Proof.
  induction ls as [|l ls IH]; intros buf; simpl; [constructor|].
  assert (Hweak : forall b,
            Forall (read_for_host Join wd (l :: ls))
                   (trace (preProcess_loop' wd ls b))).
  { intros b. eapply Forall_impl; [apply IH|].
    intros ev (host & f & Hin & ?). exists host, f. split; [now right|assumption]. }
  rewrite trace_bind. apply Forall_app. split.
  - destruct (Z.eq_dec (Index l "!include") (-1)) as [E|E].
    + rewrite preProcess_line_plain by exact E. constructor.
    + destruct (slice_from_cases l (Index l "!include" + len "!include "))
        as [[f Hf]|Hf].
      * rewrite (preProcess_line_directive wd buf l f E Hf), trace_bind.
        apply Forall_app. split.
        -- destruct (readFileContents_cases wd f) as [[_ ->]|(_ & r & -> & _)];
             constructor; [|constructor].
           exists l, f. repeat split; auto. now left.
        -- destruct (outcome _) as [[cts [e|]]|msg]; constructor.
      * rewrite (preProcess_line_panics wd buf l _ E Hf). constructor.
  - destruct (outcome _) as [[b|r]|msg]; [apply Hweak|constructor|constructor].
Qed.

Lemma preProcess_reads (doc wd : string) :
  Forall (read_for_host Join wd (fst (Bufio.Scanner doc)))
         (trace (preProcess' doc wd)).
Proof.
  unfold preProcess. destruct (Bufio.Scanner doc) as [ls scanErr]. simpl.
  rewrite trace_bind. apply Forall_app. split; [apply preProcess_loop_reads|].
  destruct (outcome _) as [[b|r]|msg]; try constructor.
  destruct scanErr; constructor.
Qed.

(** C9: a line whose marker starts at index [idx] and whose length is
    below [idx + 9]: cutting out the name of the file, [line[idx+9:]], is
    out of bounds; the turn of the loop panics, and so does [preProcess] on
    every document in which the lines before this one are processed to
    their end: no error is returned. *)
Theorem C9_marker_at_end_of_line_panics (wd buf line : string) (idx : Z) :
  Index line "!include" = idx ->
  idx <> -1 ->
  len line < idx + len "!include " ->
  slice_from line (idx + len "!include ")
    = panic "runtime error: slice bounds out of range" /\
  preProcess_line' wd buf line
    = panic "runtime error: slice bounds out of range" /\
  forall doc before after scanErr t0 buf0,
    Bufio.Scanner doc = ((before ++ line :: after)%list, scanErr) ->
    preProcess_loop' wd before "" = (t0, Returned (Next buf0)) ->
    preProcess' doc wd
      = (t0, Panicked "runtime error: slice bounds out of range").
Proof.
  intros <- Hidx Hlen.
  pose proof (slice_from_panics line _ Hlen) as Hslice.
  pose proof (fun b => preProcess_line_panics wd b line _ Hidx Hslice) as Hline.
  split; [exact Hslice|]. split; [apply Hline|].
  intros doc before after scanErr t0 buf0 Hscan Hbefore.
  unfold preProcess. rewrite Hscan.
  rewrite (preProcess_loop_at wd before after line "" t0 buf0 Hbefore).
  rewrite Hline, bind_panic. rewrite bind_returned. simpl.
  now rewrite List.app_nil_r.
Qed.

(** ** The entry point *)

(** The version read off the first line is the marker exactly when the
    first line starts with the marker. *)
Lemma ramlVersion_check (firstLine : string) :
  (if 10 <=? len firstLine then slice_to firstLine 10 else ret "")
  = ret (if 10 <=? len firstLine then take 10 firstLine else "") /\
  String.eqb (if 10 <=? len firstLine then take 10 firstLine else "")
             versionMarker
  = HasPrefix firstLine versionMarker.
Proof.
  destruct (10 <=? len firstLine) eqn:E.
  - apply Z.leb_le in E. split.
    + rewrite slice_to_ok by lia. reflexivity.
    + destruct (HasPrefix firstLine versionMarker) eqn:Hp.
      * apply HasPrefix_take in Hp.
        change (String.length versionMarker) with 10%nat in Hp.
        rewrite Hp. reflexivity.
      * apply String.eqb_neq. intros Heq.
        apply (HasPrefix_take firstLine versionMarker) in Heq. congruence.
  - apply Z.leb_gt in E. split; [reflexivity|].
    destruct (HasPrefix firstLine versionMarker) eqn:Hp; [|reflexivity].
    apply HasPrefix_length in Hp. unfold len in E. simpl in Hp. lia.
Qed.

(** [ParseFile] once the main file has been read and its first line cut
    off. *)
Lemma ParseFile_read (filePath wd name main firstLine rest : string)
  (t1 : list Event) :
  filepath_Split filePath = (wd, name) ->
  readFileContents' wd name = (t1, Returned (main, None)) ->
  ReadString main LF = (firstLine, rest, None) ->
  ParseFile' filePath =
  bind (t1, Returned tt) (fun _ =>
    if HasPrefix firstLine versionMarker then
      bind (preProcess' rest wd) (fun r =>
        match snd r with
        | Some e =>
            ret (None, Some ("Error preprocessing RAML file (Error: " ++
                             e ++ ")"))
        | None =>
            bind (Unmarshal Dec (fst r) (mkAPIDefinition versionMarker zeroFields))
              (fun r' =>
                 match snd r' with
                 | Some e =>
                     ret (None, Some ("Problems parsing RAML:" ++ nl ++
                                      "  " ++ e))
                 | None => ret (Some (fst r'), None)
                 end)
        end)
    else ret (None, Some versionError)).
Proof.
  intros Hsplit Hread Hfirst. unfold ParseFile.
  rewrite Hsplit, Hread, !bind_returned. cbv beta iota. rewrite Hfirst.
  match goal with
  | |- (_, outcome ?X) = (_, outcome ?Y) => assert (E : X = Y); [|now rewrite E]
  end.
  destruct (ramlVersion_check firstLine) as [-> Heq].
  rewrite bind_ret_l, Heq.
  destruct (HasPrefix firstLine versionMarker) eqn:Hp; simpl negb; cbv iota;
    [|reflexivity].
  apply String.eqb_eq in Heq. rewrite Heq.
  apply bind_ext. intros [pre [e|]]; simpl; [reflexivity|].
  destruct (Dec pre _) as [api [e|]]; reflexivity.
Qed.

Lemma readFileContents_returns (wd f : string) :
  exists t r, readFileContents' wd f = (t, Returned r).
Proof.
  destruct (readFileContents_cases wd f) as [[_ ->]|(_ & r & Ht & Ho & _)];
    [eauto|].
  destruct (readFileContents' wd f) as [t o]. simpl in Ho. subst o. eauto.
Qed.

Lemma preProcess_only_reads (doc wd : string) :
  only_reads (trace (preProcess' doc wd)).
Proof.
  intros input Hin.
  pose proof (preProcess_reads doc wd) as H.
  rewrite List.Forall_forall in H.
  destruct (H _ Hin) as (host & f & _ & _ & _ & Hev). discriminate.
Qed.

(** The three error texts of [ParseFile] that follow the version check
    differ from the version error. *)
Lemma versionError_not_preprocessing (e : string) :
  "Error preprocessing RAML file (Error: " ++ e ++ ")" <> versionError.
Proof. intros H. vm_compute in H. discriminate. Qed.

Lemma versionError_not_parsing (e : string) :
  "Problems parsing RAML:" ++ nl ++ "  " ++ e <> versionError.
Proof. intros H. vm_compute in H. discriminate. Qed.

(** C3 (amended): for every readable input file that holds a line feed,
    [ParseFile] returns the version error exactly when the first line does
    not start with the 10 bytes of the marker; and when it does return it,
    the main file is the only thing that was touched: nothing was
    pre-processed or decoded. *)
Theorem C3_version_error_iff_marker_is_not_a_prefix
  (filePath wd name main firstLine rest : string) (t1 : list Event) :
  filepath_Split filePath = (wd, name) ->
  readFileContents' wd name = (t1, Returned (main, None)) ->
  ReadString main LF = (firstLine, rest, None) ->
  (outcome (ParseFile' filePath) = Returned (None, Some versionError)
   <-> HasPrefix firstLine versionMarker = false) /\
  (HasPrefix firstLine versionMarker = false ->
   ParseFile' filePath =
     ([EvReadFile (Join wd name)], Returned (None, Some versionError))).
Proof.
  intros Hsplit Hread Hfirst.
  rewrite (ParseFile_read _ _ _ _ _ _ _ Hsplit Hread Hfirst), bind_returned.
  pose proof (readFileContents_ok_trace _ _ _ _ Hread) as ->.
  destruct (HasPrefix firstLine versionMarker) eqn:Hp.
  - split; [|discriminate]. split; [|discriminate]. intros H. exfalso.
    destruct (preProcess' rest wd) as [t [[pre [e|]]|msg]]; run_in H;
      [| |discriminate].
    + assert (Hne := versionError_not_preprocessing e). congruence.
    + unfold Unmarshal in H. run_in H.
      destruct (Dec pre _) as [api [e|]]; run_in H; [|discriminate].
      assert (Hne := versionError_not_parsing e). congruence.
  - split; [split; reflexivity|]. reflexivity.
Qed.

(** X20: whatever the input, when [ParseFile] returns, it returns a
    document with a nil error or a nil document with an error, never a
    document together with an error nor two nils; and it fails to return
    only when the main file was read, its first line starts with the
    marker, and [preProcess] panics on what follows. *)
Theorem ParseFile_document_or_error (filePath : string) :
  (forall m e,
     outcome (ParseFile' filePath) = Returned (m, e) ->
     (m <> None /\ e = None) \/ (m = None /\ e <> None)) /\
  (forall msg,
     outcome (ParseFile' filePath) = Panicked msg ->
     exists wd name main firstLine rest t1,
       filepath_Split filePath = (wd, name) /\
       readFileContents' wd name = (t1, Returned (main, None)) /\
       ReadString main LF = (firstLine, rest, None) /\
       HasPrefix firstLine versionMarker = true /\
       outcome (preProcess' rest wd) = Panicked msg).
Proof.
  destruct (filepath_Split filePath) as [wd name] eqn:Hsplit.
  destruct (readFileContents_returns wd name) as (t1 & [main [e1|]] & Hread).
  { unfold ParseFile. rewrite Hsplit, Hread, bind_returned. simpl.
    split; [|discriminate]. intros m e [= <- <-]. right. split; congruence. }
  destruct (ReadString main LF) as [[firstLine rest] [e2|]] eqn:Hfirst.
  { unfold ParseFile. rewrite Hsplit, Hread, bind_returned. cbv beta iota.
    rewrite Hfirst. simpl.
    split; [|discriminate]. intros m e [= <- <-]. right. split; congruence. }
  rewrite (ParseFile_read _ _ _ _ _ _ _ Hsplit Hread Hfirst), bind_returned.
  destruct (HasPrefix firstLine versionMarker) eqn:Hp; simpl.
  2:{ split; [|discriminate]. intros m e [= <- <-]. right. split; congruence. }
  destruct (preProcess' rest wd) as [t [[pre [e|]]|msg']] eqn:Hpre; simpl.
  - split; [|discriminate]. intros m e' [= <- <-]. right. split; congruence.
  - destruct (Dec pre _) as [api [e|]]; simpl; (split; [|discriminate]);
      intros m e' [= <- <-]; [right|left]; split; congruence.
  - split; [discriminate|]. intros msg [= <-].
    exists wd, name, main, firstLine, rest, t1. now rewrite Hpre.
Qed.

(** C10: for every readable input file without any line feed, [ParseFile]
    returns a nil document and the error of reading the first line, after
    reading the main file only; the version marker on its own is such a
    content. *)
Theorem C10_first_line_needs_a_line_feed (filePath wd name main : string)
  (t1 : list Event) :
  filepath_Split filePath = (wd, name) ->
  readFileContents' wd name = (t1, Returned (main, None)) ->
  Index main nl = -1 ->
  ParseFile' filePath =
    ([EvReadFile (Join wd name)],
     Returned (None, Some "Problem reading RAML file (Error: EOF)")) /\
  Index versionMarker nl = -1.
Proof.
  intros Hsplit Hread Hnl. split; [|reflexivity].
  pose proof (readFileContents_ok_trace _ _ _ _ Hread) as ->.
  unfold ParseFile. rewrite Hsplit, Hread, bind_returned. cbv beta iota.
  now rewrite (ReadString_no_delim main Hnl).
Qed.

(** ** More on [readFileContents] and [preProcess] *)

Local Abbreviation expansion' := (expansion Join FS).
Local Abbreviation expansions' := (expansions Join FS).
Local Abbreviation host_reads' := (host_reads Join).
Local Abbreviation resolvable' := (resolvable Join FS).

Lemma readFileContents_ok (wd f : string) :
  f <> "" ->
  snd (FS (Join wd f)) = None ->
  readFileContents' wd f =
    ([EvReadFile (Join wd f)], Returned (fst (FS (Join wd f)), None)).
Proof.
  intros Hne Hok. unfold readFileContents.
  rewrite (proj2 (String.eqb_neq f "") Hne). unfold ReadFile.
  destruct (FS (Join wd f)) as [cts err]. simpl in Hok. subst err. reflexivity.
Qed.

Lemma readFileContents_failed (wd f x e : string) :
  f <> "" ->
  FS (Join wd f) = (x, Some e) ->
  readFileContents' wd f =
    ([EvReadFile (Join wd f)],
     Returned ("", Some ("Could not read file " ++ Join wd f ++
                         " (Error: " ++ e ++ ")"))).
Proof.
  intros Hne Hfs. unfold readFileContents.
  rewrite (proj2 (String.eqb_neq f "") Hne). unfold ReadFile.
  now rewrite Hfs.
Qed.

Lemma has_directive_true (line : string) :
  has_directive line = true <-> Index line "!include" <> -1.
Proof.
  unfold has_directive. rewrite negb_true_iff. apply Z.eqb_neq.
Qed.

Lemma has_directive_false (line : string) :
  has_directive line = false <-> directive_free line.
Proof.
  unfold has_directive, directive_free. rewrite negb_false_iff. apply Z.eqb_eq.
Qed.

(** One turn of the outer loop on a line that can be expanded. *)
Lemma preProcess_line_resolvable (wd buf line : string) :
  has_directive line = true ->
  resolvable' wd line ->
  preProcess_line' wd buf line =
    ([EvReadFile (Join wd (included_file line))],
     Returned (Next (buf ++ expansion' wd line))).
Proof.
  intros Hdir (Hlen & Hname & Hread).
  pose proof (proj1 (has_directive_true line) Hdir) as Hidx.
  pose proof (Index_bound line "!include" Hidx) as [Hlo _].
  assert (Hf : slice_from line (Index line "!include" + len "!include ")
               = ret (included_file line)).
  { apply slice_from_drop. pose proof (len_nonneg "!include "). lia. }
  rewrite (preProcess_line_directive wd buf line _ Hidx Hf).
  rewrite (readFileContents_ok wd _ Hname Hread), bind_returned.
  unfold expansion. rewrite Hdir. reflexivity.
Qed.

(** A turn of the outer loop that goes on was on a line without marker or
    on a line that can be expanded. *)
Lemma preProcess_line_next_inv (wd buf line : string) t buf' :
  preProcess_line' wd buf line = (t, Returned (Next buf')) ->
  has_directive line = true ->
  resolvable' wd line.
Proof.
  intros H Hdir.
  pose proof (proj1 (has_directive_true line) Hdir) as Hidx.
  destruct (slice_from_cases line (Index line "!include" + len "!include "))
    as [[f Hf]|Hf].
  - pose proof (slice_from_inv _ _ _ Hf) as [Hb Hfile].
    rewrite (preProcess_line_directive wd buf line f Hidx Hf) in H.
    destruct (readFileContents_cases wd f) as [[_ E]|(Hne & r & Ht & Ho & Hr)].
    + rewrite E in H. discriminate.
    + destruct (readFileContents' wd f) as [t' o]. simpl in Ht, Ho. subst t' o.
      rewrite bind_returned in H. destruct r as [cts [e|]]; [discriminate|].
      destruct (Hr eq_refl) as [_ Hok].
      unfold resolvable, included_file. rewrite <- Hfile.
      split; [lia|]. split; assumption.
  - rewrite (preProcess_line_panics wd buf line _ Hidx Hf) in H. discriminate.
Qed.

(** The loop that runs to its end: its buffer, its readings, its lines. *)
Lemma preProcess_loop_success (wd : string) (ls : list string) :
  forall buf t buf',
    preProcess_loop' wd ls buf = (t, Returned (Next buf')) ->
    buf' = buf ++ expansions' wd ls /\
    t = host_reads' wd ls /\
    Forall (fun l => directive_free l \/ resolvable' wd l) ls.
Proof.
  induction ls as [|l ls IH]; intros buf t buf' H; simpl in H.
  - injection H as <- <-. split; [now rewrite app_nil_r|]. split; constructor.
  - destruct (preProcess_line' wd buf l) as [t1 [[b|r]|msg]] eqn:Hl;
      try discriminate.
    rewrite bind_returned in H.
    destruct (preProcess_loop' wd ls b) as [t2 o] eqn:Hr.
    simpl in H. injection H as <- ->.
    destruct (IH _ _ _ Hr) as (-> & -> & Hall).
    destruct (has_directive l) eqn:Hdir.
    + pose proof (preProcess_line_next_inv _ _ _ _ _ Hl Hdir) as Hres.
      rewrite (preProcess_line_resolvable wd buf l Hdir Hres) in Hl.
      injection Hl as <- <-.
      split; [|split].
      * unfold expansions. simpl. now rewrite !app_assoc.
      * unfold host_reads. rewrite filter_cons_True by exact Hdir.
        reflexivity.
      * constructor; [now right|exact Hall].
    + pose proof (proj1 (has_directive_false l) Hdir) as Hfree.
      rewrite (preProcess_line_plain wd buf l Hfree) in Hl.
      injection Hl as <- <-.
      split; [|split].
      * unfold expansions, expansion. simpl. rewrite Hdir.
        now rewrite !app_assoc.
      * unfold host_reads. rewrite filter_cons_False by congruence.
        reflexivity.
      * constructor; [now left|exact Hall].
Qed.

(** The loop over lines that can all be expanded runs to its end. *)
Lemma preProcess_loop_resolvable (wd : string) (ls : list string) :
  Forall (fun l => directive_free l \/ resolvable' wd l) ls ->
  forall buf,
    preProcess_loop' wd ls buf =
      (host_reads' wd ls, Returned (Next (buf ++ expansions' wd ls))).
Proof.
  induction 1 as [|l ls Hl _ IH]; intros buf; simpl.
  - now rewrite app_nil_r.
  - destruct (has_directive l) eqn:Hdir.
    + destruct Hl as [Hfree|Hres].
      { apply has_directive_false in Hfree. congruence. }
      rewrite (preProcess_line_resolvable wd buf l Hdir Hres), bind_returned.
      rewrite IH. unfold host_reads, expansions.
      rewrite filter_cons_True by exact Hdir. simpl. now rewrite !app_assoc.
    + pose proof (proj1 (has_directive_false l) Hdir) as Hfree.
      rewrite (preProcess_line_plain wd buf l Hfree), bind_ret_l, IH.
      unfold host_reads, expansions.
      rewrite filter_cons_False by congruence. simpl. unfold expansion at 2.
      rewrite Hdir. now rewrite !app_assoc.
Qed.

(** [preProcess] in terms of its loop. *)
Lemma preProcess_success_inv (doc wd out : string) (t : list Event) :
  preProcess' doc wd = (t, Returned (out, None)) ->
  snd (Bufio.Scanner doc) = None /\
  preProcess_loop' wd (fst (Bufio.Scanner doc)) "" = (t, Returned (Next out)).
Proof.
  unfold preProcess. destruct (Bufio.Scanner doc) as [ls scanErr]. simpl.
  destruct (preProcess_loop' wd ls "") as [t1 [[b|r]|msg]] eqn:Hloop;
    rewrite ?bind_returned; simpl; try discriminate.
  - destruct scanErr; simpl; [discriminate|].
    intros [= <- <-]. now rewrite List.app_nil_r.
  - intros [= <- ->]. apply preProcess_loop_return_error in Hloop as [_ ?].
    congruence.
Qed.

(** [preProcess] leaves at a line from which the loop returns. *)
Lemma preProcess_at_return (wd doc line : string) (before after : list string)
  (scanErr : error) (t0 t : list Event) (buf0 : string) (r : string * error) :
  Bufio.Scanner doc = ((before ++ line :: after)%list, scanErr) ->
  preProcess_loop' wd before "" = (t0, Returned (Next buf0)) ->
  preProcess_line' wd buf0 line = (t, Returned (Return r)) ->
  preProcess' doc wd = ((t0 ++ t)%list, Returned r).
Proof.
  intros Hscan Hbefore Hline. unfold preProcess. rewrite Hscan.
  rewrite (preProcess_loop_at wd before after line "" t0 buf0 Hbefore).
  rewrite Hline, !bind_returned. simpl. now rewrite !List.app_nil_r.
Qed.

(** X1: [readFileContents] never panics.  With an empty file name it
    returns a nil buffer and [File name cannot be nil: <path>] and reads
    nothing; with another name it reads the file at the joined path, once:
    when the reading fails with a cause it returns a nil buffer and [Could
    not read file <path> (Error: <cause>)], when it succeeds it returns
    the contents of the file and a nil error.  So it returns contents with
    a nil error exactly when the name is not empty and the reading
    succeeds, and every error comes with a nil buffer. *)
Theorem readFileContents_contents_iff (wd f : string) :
  (exists r, outcome (readFileContents' wd f) = Returned r) /\
  (f = "" ->
   readFileContents' wd f =
     ([], Returned ("", Some ("File name cannot be nil: " ++ Join wd f)))) /\
  (forall x e,
     f <> "" -> FS (Join wd f) = (x, Some e) ->
     readFileContents' wd f =
       ([EvReadFile (Join wd f)],
        Returned ("", Some ("Could not read file " ++ Join wd f ++
                            " (Error: " ++ e ++ ")")))) /\
  (forall cts,
     f <> "" -> FS (Join wd f) = (cts, None) ->
     readFileContents' wd f =
       ([EvReadFile (Join wd f)], Returned (cts, None))) /\
  (forall cts,
     outcome (readFileContents' wd f) = Returned (cts, None)
     <-> f <> "" /\ FS (Join wd f) = (cts, None)) /\
  (forall x e,
     outcome (readFileContents' wd f) = Returned (x, Some e) -> x = "") /\
  (trace (readFileContents' wd f) = [] \/
   trace (readFileContents' wd f) = [EvReadFile (Join wd f)]).
Proof.
  split.
  { destruct (readFileContents_returns wd f) as (t & r & ->). now exists r. }
  split.
  { intros ->. reflexivity. }
  split.
  { intros x e Hne Hfs. now apply (readFileContents_failed wd f x e). }
  split.
  { intros cts Hne Hfs. rewrite (readFileContents_ok wd f Hne).
    - now rewrite Hfs.
    - now rewrite Hfs. }
  unfold readFileContents. destruct (String.eqb_spec f "") as [->|Hne].
  - split; [|split].
    + intros cts. split; [discriminate|]. now intros [? _].
    + now intros x e [= <- _].
    + now left.
  - unfold ReadFile. destruct (FS (Join wd f)) as [c [e|]]; simpl.
    + split; [|split].
      * intros cts. split; [discriminate|]. intros [_ ?]. discriminate.
      * now intros x e' [= <- _].
      * now right.
    + split; [|split].
      * intros cts. split; [intros [= ->]; now split|].
        now intros [_ [= ->]].
      * discriminate.
      * now right.
Qed.

(** X2: whenever [preProcess] returns an error, the buffer it returns is
    nil: no partial output gets out. *)
Theorem preProcess_error_has_nil_buffer (doc wd out e : string) :
  outcome (preProcess' doc wd) = Returned (out, Some e) -> out = "".
Proof.
  unfold preProcess. destruct (Bufio.Scanner doc) as [ls scanErr].
  destruct (preProcess_loop' wd ls "") as [t1 [[b|r]|msg]] eqn:Hloop;
    rewrite ?bind_returned; simpl; try discriminate.
  - destruct scanErr; simpl; [|discriminate]. now intros [= <- _].
  - destruct r as [o err]. intros [= -> ->].
    now apply preProcess_loop_return_error in Hloop as [-> _].
Qed.

(** X3: the buffer of a successful [preProcess] is, line after line of the
    document, the line and a line feed, or, for a line with the marker,
    what precedes the marker and the re-indented lines of the file named
    after it. *)
Theorem preProcess_output_is_expansion (doc wd out : string) (t : list Event) :
  preProcess' doc wd = (t, Returned (out, None)) ->
  out = expansions' wd (fst (Bufio.Scanner doc)).
Proof.
  intros H. apply preProcess_success_inv in H as [_ Hloop].
  now apply preProcess_loop_success in Hloop as (-> & _ & _).
Qed.

(** X4: a successful [preProcess] reads the files named by the lines of the
    document that hold the marker, one reading per such line, in the order
    of the lines, and nothing else. *)
Theorem preProcess_reads_in_document_order (doc wd out : string) (t : list Event) :
  preProcess' doc wd = (t, Returned (out, None)) ->
  t = host_reads' wd (fst (Bufio.Scanner doc)).
Proof.
  intros H. apply preProcess_success_inv in H as [_ Hloop].
  now apply preProcess_loop_success in Hloop as (_ & -> & _).
Qed.

(** X5: [preProcess] returns a buffer with a nil error exactly when the
    scan of the document ends without error and every line with the marker
    has a byte at least after the marker, a name after it that is not
    empty, and a file of that name that is read without error. *)
Theorem preProcess_succeeds_iff (doc wd : string) :
  (exists t out, preProcess' doc wd = (t, Returned (out, None))) <->
  snd (Bufio.Scanner doc) = None /\
  Forall (fun l => directive_free l \/ resolvable' wd l) (fst (Bufio.Scanner doc)).
Proof.
  split.
  - intros (t & out & H). apply preProcess_success_inv in H as [Hscan Hloop].
    split; [exact Hscan|].
    now apply preProcess_loop_success in Hloop as (_ & _ & ?).
  - intros [Hscan Hall]. unfold preProcess.
    destruct (Bufio.Scanner doc) as [ls scanErr]. simpl in Hscan, Hall.
    subst scanErr. rewrite (preProcess_loop_resolvable wd ls Hall).
    rewrite bind_returned. simpl. eauto.
Qed.

(** X6: a line with the marker whose file is empty contributes what
    precedes the marker and no line feed: the next line of the document
    follows on the same output line. *)
Theorem preProcess_empty_include_joins_lines (wd buf line next f : string)
  (t : list Event) (c : Z) :
  Index line "!include" = c ->
  c <> -1 ->
  slice_from line (c + len "!include ") = ret f ->
  readFileContents' wd f = (t, Returned ("", None)) ->
  directive_free next ->
  preProcess_loop' wd [line; next] buf =
    (t, Returned (Next (buf ++ take (Z.to_nat c) line ++ next ++ nl))).
Proof.
  intros <- Hc Hf Hread Hnext. simpl.
  rewrite (preProcess_line_directive wd buf line f Hc Hf), Hread.
  rewrite bind_returned. simpl.
  rewrite (preProcess_line_plain wd _ next Hnext), bind_ret_l. simpl.
  rewrite !List.app_nil_r. now rewrite app_nil_r, !app_assoc.
Qed.

(** X7: a line that ends right after the marker and one more byte names
    the empty file: [preProcess] returns the inclusion error built on
    [File name cannot be nil], with a nil buffer, and reads no file for
    that line. *)
Theorem preProcess_empty_file_name (wd doc line : string)
  (before after : list string) (scanErr : error) (t0 : list Event)
  (buf0 : string) :
  Bufio.Scanner doc = ((before ++ line :: after)%list, scanErr) ->
  preProcess_loop' wd before "" = (t0, Returned (Next buf0)) ->
  Index line "!include" <> -1 ->
  len line = Index line "!include" + len "!include " ->
  preProcess' doc wd =
    (t0, Returned ("", Some ("Error including file " ++ "" ++ ":" ++ nl ++
                            "    " ++ "File name cannot be nil: " ++
                            Join wd ""))).
Proof.
  intros Hscan Hbefore Hidx Hlen.
  assert (Hf : slice_from line (Index line "!include" + len "!include ")
               = ret "").
  { rewrite slice_from_drop by (pose proof (len_nonneg line); lia).
    rewrite <- Hlen. unfold len. rewrite Nat2Z.id. now rewrite drop_all. }
  assert (Hline : preProcess_line' wd buf0 line =
            ([], Returned (Return ("", Some ("Error including file " ++ "" ++
                    ":" ++ nl ++ "    " ++ "File name cannot be nil: " ++
                    Join wd ""))))).
  { rewrite (preProcess_line_directive wd buf0 line "" Hidx Hf).
    reflexivity. }
  rewrite (preProcess_at_return _ _ _ _ _ _ _ _ _ _ Hscan Hbefore Hline).
  now rewrite List.app_nil_r.
Qed.

(** X8: the byte that follows the marker is skipped whatever it is: on a
    line [pre ++ "!include" ++ c ++ name] whose first marker is the one
    shown, the file that is read is [name]. *)
Theorem preProcess_skips_byte_after_marker (wd buf pre name : string)
  (c : ascii) :
  Index (pre ++ "!include" ++ String c name) "!include" = len pre ->
  name <> "" ->
  snd (FS (Join wd name)) = None ->
  preProcess_line' wd buf (pre ++ "!include" ++ String c name) =
    ([EvReadFile (Join wd name)],
     Returned (Next (buf ++ pre ++
                     reindent (len pre)
                       (fst (Bufio.Scanner (fst (FS (Join wd name)))))))).
Proof.
  intros Hidx Hname Hread.
  set (line := pre ++ "!include" ++ String c name) in *.
  assert (Hfile : included_file line = name).
  { unfold included_file. rewrite Hidx. unfold line.
    replace (Z.to_nat (len pre + len "!include "))
      with (String.length (pre ++ "!include" ++ String c ""))%nat.
    - replace (pre ++ "!include" ++ String c name)
        with ((pre ++ "!include" ++ String c "") ++ name)
        by now rewrite !app_assoc.
      apply drop_app_length.
    - apply Nat2Z.inj. rewrite Z2Nat.id by (unfold len; lia).
      change (Z.of_nat (String.length (pre ++ "!include" ++ String c "")))
        with (len (pre ++ "!include" ++ String c "")).
      rewrite !len_app. reflexivity. }
  assert (Htake : take (Z.to_nat (len pre)) line = pre).
  { unfold len. rewrite Nat2Z.id. unfold line.
    apply take_app_length. }
  assert (Hdir : has_directive line = true).
  { apply has_directive_true. rewrite Hidx. pose proof (len_nonneg pre). lia. }
  assert (Hres : resolvable' wd line).
  { unfold resolvable. rewrite Hfile, Hidx. split; [|now split].
    unfold line. rewrite !len_app, (len_cons c name).
    change (len "!include ") with 9. change (len "!include") with 8.
    pose proof (len_nonneg name). lia. }
  rewrite (preProcess_line_resolvable wd buf line Hdir Hres).
  unfold expansion. rewrite Hdir, Hfile, Hidx, Htake. reflexivity.
Qed.

(** X9: a document without marker whose last line has no line feed comes
    out with one line feed more, when its lines are plain. *)
Theorem preProcess_adds_final_line_feed (wd last : string) (ls : list string) :
  Forall plain_line ls ->
  Forall directive_free ls ->
  plain_line last ->
  directive_free last ->
  last <> "" ->
  preProcess' (unlines ls ++ last) wd = ret ((unlines ls ++ last) ++ nl, None).
Proof.
  intros Hplain Hfree Hlast Hlastfree Hne.
  assert (Hscan : Bufio.Scanner (unlines ls ++ last) = ((ls ++ [last])%list, None)).
  { unfold Bufio.Scanner. rewrite raw_lines_unlines_app.
    - rewrite raw_lines_last; [|exact Hne|apply Hlast].
      apply scan_plain. apply Forall_app. split; [exact Hplain|].
      constructor; [exact Hlast|constructor].
    - eapply Forall_impl; [exact Hplain|]. now intros l (? & _). }
  rewrite preProcess_directive_free; rewrite Hscan; simpl.
  - rewrite unlines_app. simpl. now rewrite app_nil_r, !app_assoc.
  - apply Forall_app. split; [exact Hfree|]. constructor; [exact Hlastfree|constructor].
Qed.

(** X10: a document without marker whose lines all end with a carriage
    return and a line feed comes out with line feeds only. *)
Theorem preProcess_turns_crlf_into_lf (wd : string) (ls : list string) :
  Forall (fun l => Index l nl = -1) ls ->
  Forall (fun l => len l + 1 < Bufio.MaxScanTokenSize) ls ->
  Forall directive_free ls ->
  preProcess' (unlines (map (fun l => l ++ String CR "") ls)) wd
  = ret (unlines ls, None).
Proof.
  intros Hnl Hlen Hfree.
  assert (Hscan : Bufio.Scanner (unlines (map (fun l => l ++ String CR "") ls))
                  = (ls, None)).
  { unfold Bufio.Scanner. rewrite raw_lines_unlines.
    - now apply scan_crlf.
    - apply Forall_map. eapply Forall_impl; [exact Hnl|].
      intros l Hl. simpl. apply Index_nl_app. split; [exact Hl|reflexivity]. }
  rewrite preProcess_directive_free; rewrite Hscan; simpl;
    [reflexivity|exact Hfree].
Qed.

(** X11: a line of 65536 bytes or more, after plain lines without marker,
    makes [preProcess] return a nil buffer and the error of the scanner;
    what follows that line is never looked at. *)
Theorem preProcess_line_too_long (wd long rest : string) (before : list string) :
  Forall plain_line before ->
  Forall directive_free before ->
  Index long nl = -1 ->
  Bufio.MaxScanTokenSize <= len long ->
  preProcess' (unlines before ++ long ++ nl ++ rest) wd
  = ret ("", Some ("Error reading YAML file: " ++
                   "bufio.Scanner: token too long")).
Proof.
  intros Hplain Hfree Hnl Hlen.
  assert (Hscan : Bufio.Scanner (unlines before ++ long ++ nl ++ rest)
                  = (before, Some Bufio.ErrTooLong)).
  { unfold Bufio.Scanner. rewrite raw_lines_unlines_app.
    - rewrite raw_lines_line by exact Hnl.
      rewrite scan_app by exact Hplain. rewrite scan_long by exact Hlen.
      simpl. now rewrite List.app_nil_r.
    - eapply Forall_impl; [exact Hplain|]. now intros l (? & _). }
  rewrite preProcess_directive_free; rewrite Hscan; simpl;
    [reflexivity|exact Hfree].
Qed.

(** ** More on [ParseFile] *)

(** X12: [ParseFile] returns a document exactly when the main file is
    read, its first line ends with a line feed and starts with the marker,
    [preProcess] succeeds on what follows, and the YAML engine, given the
    pre-processed text and a document that holds the marker as its version
    and zero fields, returns no error; the document returned is the one
    the engine filled in. *)
Theorem ParseFile_succeeds_iff (filePath : string) (doc : APIDefinition Fields) :
  outcome (ParseFile' filePath) = Returned (Some doc, None) <->
  exists wd name main firstLine rest t1 t2 out,
    filepath_Split filePath = (wd, name) /\
    readFileContents' wd name = (t1, Returned (main, None)) /\
    ReadString main LF = (firstLine, rest, None) /\
    HasPrefix firstLine versionMarker = true /\
    preProcess' rest wd = (t2, Returned (out, None)) /\
    Dec out (mkAPIDefinition versionMarker zeroFields) = (doc, None).
Proof.
  split.
  - destruct (filepath_Split filePath) as [wd name] eqn:Hsplit.
    destruct (readFileContents_returns wd name) as (t1 & [main [e1|]] & Hread).
    { unfold ParseFile. rewrite Hsplit, Hread, bind_returned. discriminate. }
    destruct (ReadString main LF) as [[firstLine rest] [e2|]] eqn:Hfirst.
    { unfold ParseFile. rewrite Hsplit, Hread, bind_returned. cbv beta iota.
      rewrite Hfirst. discriminate. }
    rewrite (ParseFile_read _ _ _ _ _ _ _ Hsplit Hread Hfirst), bind_returned.
    destruct (HasPrefix firstLine versionMarker) eqn:Hp; [|discriminate].
    destruct (preProcess' rest wd) as [t2 [[out [e|]]|msg]] eqn:Hpre;
      rewrite ?bind_returned; try discriminate.
    unfold Unmarshal, emit. rewrite !bind_returned. simpl.
    destruct (Dec out _) as [api [e|]] eqn:Hdec; simpl; [discriminate|].
    intros [= ->]. exists wd, name, main, firstLine, rest, t1, t2, out.
    repeat split; assumption.
  - intros (wd & name & main & firstLine & rest & t1 & t2 & out &
            Hsplit & Hread & Hfirst & Hp & Hpre & Hdec).
    rewrite (ParseFile_read _ _ _ _ _ _ _ Hsplit Hread Hfirst), Hp, Hpre.
    rewrite !bind_returned. unfold Unmarshal, emit. rewrite !bind_returned.
    simpl. now rewrite Hdec.
Qed.

(** X13: a path that ends with a separator, and the empty path, have an
    empty file name: [ParseFile] returns a nil document and the error
    [File name cannot be nil], and reads nothing. *)
Theorem ParseFile_without_file_name (dir : string) :
  ParseFile' (dir ++ "/") =
    ret (None, Some ("File name cannot be nil: " ++ Join (dir ++ "/") "")) /\
  ParseFile' "" = ret (None, Some ("File name cannot be nil: " ++ Join "" "")).
Proof.
  split.
  - unfold ParseFile. now rewrite filepath_Split_trailing_separator.
  - reflexivity.
Qed.

(** X14: when the main file cannot be read, [ParseFile] returns a nil
    document and the error of [readFileContents] as it is, without the
    wrapping it gives to the later errors, after this one reading. *)
Theorem ParseFile_unreadable_main_file (filePath wd name x e : string) :
  filepath_Split filePath = (wd, name) ->
  name <> "" ->
  FS (Join wd name) = (x, Some e) ->
  ParseFile' filePath =
    ([EvReadFile (Join wd name)],
     Returned (None, Some ("Could not read file " ++ Join wd name ++
                           " (Error: " ++ e ++ ")"))).
Proof.
  intros Hsplit Hname Hfs. unfold ParseFile.
  rewrite Hsplit, (readFileContents_failed wd name x e Hname Hfs).
  rewrite bind_returned. reflexivity.
Qed.

(** X15: the events of [ParseFile] are readings of files followed by at
    most one call of the YAML engine, which comes last: every file is read
    before decoding begins, and a call that fails earlier never reaches
    the engine. *)
Theorem ParseFile_reads_then_decodes_once (filePath : string) :
  exists reads,
    only_reads reads /\
    (trace (ParseFile' filePath) = reads \/
     exists input, trace (ParseFile' filePath) = (reads ++ [EvUnmarshal input])%list).
Proof.
  destruct (filepath_Split filePath) as [wd name] eqn:Hsplit.
  assert (Hmain : forall t r, readFileContents' wd name = (t, Returned r) ->
                   only_reads t).
  { intros t r Hr input Hin.
    destruct (readFileContents_cases wd name) as [[_ E]|(_ & r' & Ht & _)].
    - rewrite E in Hr. injection Hr as <- _. contradiction.
    - rewrite Hr in Ht. simpl in Ht. subst t.
      destruct Hin as [Hin|[]]. discriminate. }
  destruct (readFileContents_returns wd name) as (t1 & [main [e1|]] & Hread).
  { exists t1. split; [eapply Hmain; eauto|]. left.
    unfold ParseFile. rewrite Hsplit, Hread, bind_returned. simpl.
    now rewrite List.app_nil_r. }
  destruct (ReadString main LF) as [[firstLine rest] [e2|]] eqn:Hfirst.
  { exists t1. split; [eapply Hmain; eauto|]. left.
    unfold ParseFile. rewrite Hsplit, Hread, bind_returned. cbv beta iota.
    rewrite Hfirst. simpl. now rewrite List.app_nil_r. }
  rewrite (ParseFile_read _ _ _ _ _ _ _ Hsplit Hread Hfirst), bind_returned.
  destruct (HasPrefix firstLine versionMarker) eqn:Hp.
  2:{ exists t1. split; [eapply Hmain; eauto|]. left. simpl.
      now rewrite List.app_nil_r. }
  pose proof (preProcess_only_reads rest wd) as Hpre.
  destruct (preProcess' rest wd) as [t2 [[out [e|]]|msg]];
    rewrite ?bind_returned; simpl in Hpre |- *.
  - exists (t1 ++ t2)%list. split.
    + intros input Hin. apply in_app_or in Hin as [Hin|Hin];
        [exact (Hmain _ _ Hread input Hin)|exact (Hpre input Hin)].
    + left. now rewrite List.app_nil_r.
  - exists (t1 ++ t2)%list. split.
    + intros input Hin. apply in_app_or in Hin as [Hin|Hin];
        [exact (Hmain _ _ Hread input Hin)|exact (Hpre input Hin)].
    + right. exists out. destruct (Dec out _) as [api [e|]]; simpl;
        now rewrite List.app_assoc.
  - exists (t1 ++ t2)%list. split.
    + intros input Hin. apply in_app_or in Hin as [Hin|Hin];
        [exact (Hmain _ _ Hread input Hin)|exact (Hpre input Hin)].
    + left. reflexivity.
Qed.

(** ** The claims on whole documents *)

Lemma expansions_app (wd : string) (a b : list string) :
  expansions' wd (a ++ b) = expansions' wd a ++ expansions' wd b.
Proof. unfold expansions. now rewrite map_app, flatten_app. Qed.

Lemma host_reads_app (wd : string) (a b : list string) :
  host_reads' wd (a ++ b) = (host_reads' wd a ++ host_reads' wd b)%list.
Proof. unfold host_reads. now rewrite filter_app, map_app. Qed.

(** A document whose lines can all be expanded, scanned without error. *)
Lemma preProcess_document (doc wd : string) (lines : list string) :
  Bufio.Scanner doc = (lines, None) ->
  Forall (fun l => directive_free l \/ resolvable' wd l) lines ->
  preProcess' doc wd =
    (host_reads' wd lines, Returned (expansions' wd lines, None)).
Proof.
  intros Hscan Hall. unfold preProcess. rewrite Hscan.
  rewrite (preProcess_loop_resolvable wd lines Hall), bind_returned.
  simpl. now rewrite List.app_nil_r.
Qed.

(** A document with a line that includes a file, by the lines the scan of
    that file delivers. *)
Lemma preProcess_document_with_tokens (wd doc line contents : string)
  (before after tokens : list string) :
  Bufio.Scanner doc = ((before ++ line :: after)%list, None) ->
  Forall (fun l => directive_free l \/ resolvable' wd l) before ->
  Forall (fun l => directive_free l \/ resolvable' wd l) after ->
  Index line "!include" <> -1 ->
  Index line "!include" + len "!include " <= len line ->
  included_file line <> "" ->
  FS (Join wd (included_file line)) = (contents, None) ->
  fst (Bufio.Scanner contents) = tokens ->
  preProcess' doc wd =
    ((host_reads' wd before ++
      EvReadFile (Join wd (included_file line)) :: host_reads' wd after)%list,
     Returned (expansions' wd before ++
               (take (Z.to_nat (Index line "!include")) line ++
                reindent (Index line "!include") tokens) ++
               expansions' wd after, None)).
Proof.
  intros Hscan Hbefore Hafter Hidx Hlen Hname Hfs Htok.
  assert (Hdir : has_directive line = true) by now apply has_directive_true.
  assert (Hres : resolvable' wd line).
  { unfold resolvable. rewrite Hfs. now repeat split. }
  rewrite (preProcess_document doc wd _ Hscan).
  2:{ apply Forall_app. split; [exact Hbefore|].
      constructor; [now right|exact Hafter]. }
  rewrite host_reads_app, expansions_app. do 3 f_equal.
  - unfold host_reads. now rewrite filter_cons_True by exact Hdir.
  - change (line :: after) with ([line] ++ after)%list.
    rewrite expansions_app. f_equal.
    unfold expansions, expansion. simpl. rewrite Hdir, Hfs. simpl.
    rewrite Htok. now rewrite app_nil_r.
Qed.

(** A document with a line that includes a file given by its lines. *)
Lemma preProcess_document_with_include (wd doc line contents : string)
  (before after lines : list string) :
  Bufio.Scanner doc = ((before ++ line :: after)%list, None) ->
  Forall (fun l => directive_free l \/ resolvable' wd l) before ->
  Forall (fun l => directive_free l \/ resolvable' wd l) after ->
  Index line "!include" <> -1 ->
  Index line "!include" + len "!include " <= len line ->
  included_file line <> "" ->
  FS (Join wd (included_file line)) = (contents, None) ->
  has_lines contents lines ->
  Forall plain_line lines ->
  preProcess' doc wd =
    ((host_reads' wd before ++
      EvReadFile (Join wd (included_file line)) :: host_reads' wd after)%list,
     Returned (expansions' wd before ++
               (take (Z.to_nat (Index line "!include")) line ++
                reindent (Index line "!include") lines) ++
               expansions' wd after, None)).
Proof.
  intros Hscan Hbefore Hafter Hidx Hlen Hname Hfs Hlines Hplain.
  apply (preProcess_document_with_tokens wd doc line contents);
    try assumption.
  now rewrite (Scanner_has_lines contents lines Hlines Hplain).
Qed.

(** The scan of a document stops at its first line of 64 KiB or more. *)
Lemma preProcess_stops_at_long_line (wd long rest : string)
  (before : list string) :
  Forall plain_line before ->
  Forall directive_free before ->
  Index long nl = -1 ->
  Bufio.MaxScanTokenSize <= len long ->
  preProcess' (unlines before ++ long ++ nl ++ rest) wd
  = ret ("", Some ("Error reading YAML file: " ++
                   "bufio.Scanner: token too long")).
Proof.
  intros Hplain Hfree Hnl Hlen.
  rewrite preProcess_directive_free;
    rewrite (Scanner_cut_at_long_line before long rest Hplain Hnl Hlen); simpl;
    [reflexivity|exact Hfree].
Qed.

Lemma preProcess_stops_at_long_first_line (wd long rest : string) :
  Index long nl = -1 ->
  Bufio.MaxScanTokenSize <= len long ->
  preProcess' (long ++ nl ++ rest) wd
  = ret ("", Some ("Error reading YAML file: " ++
                   "bufio.Scanner: token too long")).
Proof.
  intros Hnl Hlen.
  exact (preProcess_stops_at_long_line wd long rest [] (List.Forall_nil _)
           (List.Forall_nil _) Hnl Hlen).
Qed.

(** C1 (amended): a document that is scanned without error into the lines
    [before], a host line and the lines [after]; the other lines hold no
    marker or can be expanded; the host line has its first marker at
    column [c], a byte at least after the marker and then a name that is
    not empty, and the file of that name is read without error; this file
    is made of the lines [L1 :: Ls], each ended by a line feed (the last
    one, when not empty, may lack it), without a carriage return at their
    end and shorter than 65536 bytes.  Then the host line is what precedes
    column [c], the marker and the rest; [preProcess] reads the files of
    the lines in order, and returns, with a nil error, the expansions of
    the lines before, then what precedes column [c] of the host line,
    then [L1] and a line feed, then every other line preceded by [c]
    spaces and followed by a line feed, then the expansions of the lines
    after; [c] spaces are a string of length [c]. *)
Theorem C1_included_lines_reindented (wd doc line contents L1 : string)
  (before after Ls : list string) (c : Z) :
  Bufio.Scanner doc = ((before ++ line :: after)%list, None) ->
  Forall (fun l => directive_free l \/ resolvable' wd l) before ->
  Forall (fun l => directive_free l \/ resolvable' wd l) after ->
  Index line "!include" = c ->
  c <> -1 ->
  c + len "!include " <= len line ->
  included_file line <> "" ->
  FS (Join wd (included_file line)) = (contents, None) ->
  has_lines contents (L1 :: Ls) ->
  Forall plain_line (L1 :: Ls) ->
  line = take (Z.to_nat c) line ++ "!include" ++
         drop (Z.to_nat (c + len "!include")) line /\
  preProcess' doc wd =
    ((host_reads' wd before ++
      EvReadFile (Join wd (included_file line)) :: host_reads' wd after)%list,
     Returned (expansions' wd before ++
               (take (Z.to_nat c) line ++ L1 ++ nl ++ indented c Ls) ++
               expansions' wd after, None)) /\
  len (Repeat " " c) = c.
Proof.
  intros Hscan Hbefore Hafter <- Hc Hlen Hname Hfs Hlines Hplain.
  split; [now apply Index_split|]. split.
  - exact (preProcess_document_with_include wd doc line contents before after
             (L1 :: Ls) Hscan Hbefore Hafter Hc Hlen Hname Hfs Hlines Hplain).
  - apply len_repeat_space.
    pose proof (Index_bound line "!include" Hc) as [? _]. lia.
Qed.

(** C7 (amended): a document and a host line as in C1, whose file is made
    of the plain lines [pre], then a line [L] that holds the marker, then
    the lines [post].  Then [preProcess] reads the files the lines of the
    document name, one reading per line with a marker, and no other file;
    it returns, with a nil error, a buffer in which the line [L] stands
    as it is, after the re-indented lines [pre] and its own indentation,
    followed by a line feed and the indented lines [post]; this buffer
    still holds the marker. *)
Theorem C7_nested_directives_are_copied (wd doc line contents L : string)
  (before after pre post : list string) (c : Z) :
  Bufio.Scanner doc = ((before ++ line :: after)%list, None) ->
  Forall (fun l => directive_free l \/ resolvable' wd l) before ->
  Forall (fun l => directive_free l \/ resolvable' wd l) after ->
  Index line "!include" = c ->
  c <> -1 ->
  c + len "!include " <= len line ->
  included_file line <> "" ->
  FS (Join wd (included_file line)) = (contents, None) ->
  has_lines contents (pre ++ L :: post)%list ->
  Forall plain_line (pre ++ L :: post)%list ->
  Index L "!include" <> -1 ->
  preProcess' doc wd =
    (host_reads' wd (before ++ line :: after),
     Returned (expansions' wd before ++
               (take (Z.to_nat c) line ++ reindent_before c pre ++
                L ++ nl ++ indented c post) ++
               expansions' wd after, None)) /\
  Index (expansions' wd before ++
         (take (Z.to_nat c) line ++ reindent_before c pre ++
          L ++ nl ++ indented c post) ++
         expansions' wd after) "!include" <> -1.
Proof.
  intros Hscan Hbefore Hafter <- Hc Hlen Hname Hfs Hlines Hplain HL.
  split.
  - rewrite (preProcess_document_with_include wd doc line contents before after
               _ Hscan Hbefore Hafter Hc Hlen Hname Hfs Hlines Hplain).
    rewrite reindent_middle, host_reads_app. do 2 f_equal.
    unfold host_reads. rewrite filter_cons_True; [reflexivity|].
    now apply has_directive_true.
  - replace (expansions' wd before ++
             (take (Z.to_nat (Index line "!include")) line ++
              reindent_before (Index line "!include") pre ++
              L ++ nl ++ indented (Index line "!include") post) ++
             expansions' wd after)
      with ((expansions' wd before ++
             take (Z.to_nat (Index line "!include")) line ++
             reindent_before (Index line "!include") pre) ++
            L ++ (nl ++ indented (Index line "!include") post ++
                  expansions' wd after))
      by now rewrite !app_assoc.
    now apply Index_context.
Qed.

(** What [readFileContents] returns when the reading fails. *)
Lemma readFileContents_read_failure (wd f cause : string) (t : list Event) :
  read_failure Join FS wd f t cause ->
  readFileContents' wd f = (t, Returned ("", Some cause)).
Proof.
  intros [(-> & -> & ->)|(Hne & -> & cts & e & Hfs & ->)].
  - reflexivity.
  - exact (readFileContents_failed wd f cts e Hne Hfs).
Qed.

(** What [readFileContents] returns for a main file that is read. *)
Lemma readFileContents_main (wd name main : string) :
  name <> "" ->
  FS (Join wd name) = (main, None) ->
  readFileContents' wd name = ([EvReadFile (Join wd name)], Returned (main, None)).
Proof.
  intros Hne Hfs. rewrite readFileContents_ok; [now rewrite Hfs|exact Hne|].
  now rewrite Hfs.
Qed.

(** C5 (amended): a document whose scan delivers a line with the marker
    after lines that hold no marker or can be expanded; the line has a
    byte at least after its marker, and the reading of the file named
    after it fails: the name is empty, or the file system reports an
    error for its path.  Then [preProcess] returns a nil buffer and the
    error that names this file, after the readings of the lines before and
    the attempt on this file; and [ParseFile], on a main file that is read,
    whose first line starts with the marker and is followed by this
    document, returns a nil document and this error wrapped, and hands
    nothing to the YAML engine. *)
Theorem C5_unreadable_include_aborts (wd doc line cause : string)
  (before after : list string) (scanErr : error) (t : list Event) :
  Bufio.Scanner doc = ((before ++ line :: after)%list, scanErr) ->
  Forall (fun l => directive_free l \/ resolvable' wd l) before ->
  Index line "!include" <> -1 ->
  Index line "!include" + len "!include " <= len line ->
  read_failure Join FS wd (included_file line) t cause ->
  preProcess' doc wd =
    ((host_reads' wd before ++ t)%list,
     Returned ("", Some ("Error including file " ++ included_file line ++
                         ":" ++ nl ++ "    " ++ cause))) /\
  forall filePath name main firstLine,
    filepath_Split filePath = (wd, name) ->
    name <> "" ->
    FS (Join wd name) = (main, None) ->
    ReadString main LF = (firstLine, doc, None) ->
    HasPrefix firstLine versionMarker = true ->
    ParseFile' filePath =
      ((EvReadFile (Join wd name) :: host_reads' wd before ++ t)%list,
       Returned (None,
                 Some ("Error preprocessing RAML file (Error: " ++
                       ("Error including file " ++ included_file line ++
                        ":" ++ nl ++ "    " ++ cause) ++ ")"))) /\
    only_reads (EvReadFile (Join wd name) :: host_reads' wd before ++ t).
Proof.
  intros Hscan Hbefore Hidx Hlen Hfail.
  pose proof (readFileContents_read_failure _ _ _ _ Hfail) as Hread.
  pose proof (Index_bound line "!include" Hidx) as [Hlo _].
  assert (Hf : slice_from line (Index line "!include" + len "!include ")
               = ret (included_file line)).
  { apply slice_from_drop. pose proof (len_nonneg "!include "). lia. }
  pose proof (preProcess_loop_resolvable wd before Hbefore "") as Hloop.
  assert (Hline : preProcess_line' wd ("" ++ expansions' wd before) line =
            (t, Returned (Return ("", Some ("Error including file " ++
                    included_file line ++ ":" ++ nl ++ "    " ++ cause))))).
  { rewrite (preProcess_line_directive wd _ line _ Hidx Hf), Hread.
    rewrite bind_returned. simpl. now rewrite List.app_nil_r. }
  pose proof (preProcess_at_return _ _ _ _ _ _ _ _ _ _ Hscan Hloop Hline) as Hpre.
  split; [exact Hpre|].
  intros filePath name main firstLine Hsplit Hname Hfs Hfirst Hp.
  pose proof (readFileContents_main wd name main Hname Hfs) as Hmain.
  split.
  - rewrite (ParseFile_read _ _ _ _ _ _ _ Hsplit Hmain Hfirst), Hp, Hpre.
    rewrite !bind_returned. simpl. now rewrite !List.app_nil_r.
  - pose proof (preProcess_only_reads doc wd) as Hreads.
    rewrite Hpre in Hreads. simpl in Hreads.
    intros input [Hin|Hin]; [discriminate|]. exact (Hreads input Hin).
Qed.

(** C8 (the code at its failing inputs): a main file that is read, whose
    first line starts with the marker, and in whose remainder the scan
    delivers, after lines that hold no marker or can be expanded, a line
    that ends right after its marker: [ParseFile] does not return, it
    panics on [line[idx+9:]], after the readings of the main file and of
    the lines before. *)
Theorem C8_ParseFile_panics_instead_of_returning
  (filePath wd name main firstLine rest line : string)
  (before after : list string) (scanErr : error) :
  filepath_Split filePath = (wd, name) ->
  name <> "" ->
  FS (Join wd name) = (main, None) ->
  ReadString main LF = (firstLine, rest, None) ->
  HasPrefix firstLine versionMarker = true ->
  Bufio.Scanner rest = ((before ++ line :: after)%list, scanErr) ->
  Forall (fun l => directive_free l \/ resolvable' wd l) before ->
  Index line "!include" <> -1 ->
  len line < Index line "!include" + len "!include " ->
  ParseFile' filePath =
    ((EvReadFile (Join wd name) :: host_reads' wd before)%list,
     Panicked "runtime error: slice bounds out of range").
Proof.
  intros Hsplit Hname Hfs Hfirst Hp Hscan Hbefore Hidx Hlen.
  pose proof (readFileContents_main wd name main Hname Hfs) as Hmain.
  pose proof (preProcess_loop_resolvable wd before Hbefore "") as Hloop.
  pose proof (slice_from_panics line _ Hlen) as Hslice.
  rewrite (ParseFile_read _ _ _ _ _ _ _ Hsplit Hmain Hfirst), Hp.
  unfold preProcess. rewrite Hscan.
  rewrite (preProcess_loop_at wd before after line "" _ _ Hloop).
  rewrite (preProcess_line_panics wd _ line _ Hidx Hslice), bind_panic.
  rewrite !bind_returned. simpl. now rewrite !List.app_nil_r.
Qed.

End ParserFacts.

(** ** The error translator *)

Module ErrorsFacts.

Import Errors.

Lemma lookup_or_key_spec (table : gmap string string) (key : string) :
  (forall v, table !! key = Some v -> lookup_or_key table key = v) /\
  (table !! key = None -> lookup_or_key table key = key).
Proof. unfold lookup_or_key. destruct (table !! key); split; congruence. Qed.

Lemma lookup_or_zero_spec (table : gmap string string) (key : string) :
  (forall v, table !! key = Some v -> lookup_or_zero table key = v) /\
  (table !! key = None -> lookup_or_zero table key = "").
Proof. unfold lookup_or_zero. destruct (table !! key); split; congruence. Qed.

Lemma drop_last_ok (part : string) :
  part <> "" ->
  slice_to part (len part - 1) = ret (take (String.length part - 1) part).
Proof.
  intros Hne. rewrite slice_to_ok.
  - unfold len. do 2 f_equal. lia.
  - unfold len. destruct part; [contradiction|]. simpl String.length. lia.
Qed.

(** What [convertYAMLError] returns on a decode error of seven parts or
    more with a second part that is not empty, whatever the tables hold. *)
Lemma convertYAMLError_parts
  (yamlError a0 p1 a2 a3 p4 p5 p6 : string) (rest : list string) :
  Contains yamlError "cannot unmarshal" = true ->
  Split yamlError " " = a0 :: p1 :: a2 :: a3 :: p4 :: p5 :: p6 :: rest ->
  p1 <> "" ->
  (lookup_or_key yamlTypeToName p4 <> "string" ->
   convertYAMLError yamlError =
     ret (diagnostic (take (String.length p1 - 1) p1)
                     (lookup_or_key ramlTypeNames p6)
                     (lookup_or_key yamlTypeToName p4)
                     (lookup_or_zero ramlTypes p6))) /\
  (lookup_or_key yamlTypeToName p4 = "string" ->
   forall p7 rest', rest = p7 :: rest' ->
   convertYAMLError yamlError =
     ret (diagnostic (take (String.length p1 - 1) p1)
                     (lookup_or_key ramlTypeNames p7)
                     ("string (got " ++ p5 ++ ")")
                     (lookup_or_zero ramlTypes p7))).
Proof.
  intros Hcontains Hsplit Hp1.
  assert (Hlen : (7 <=? Z.of_nat (length (Split yamlError " "))) = true).
  { rewrite Hsplit. apply Z.leb_le. simpl length. lia. }
  split.
  - intros Hsrc. unfold convertYAMLError.
    rewrite Hcontains, Hlen, Hsplit. unfold at_index. cbn [lookup list_lookup].
    rewrite bind_ret_l, (drop_last_ok p1 Hp1), !bind_ret_l.
    apply String.eqb_neq in Hsrc. rewrite Hsrc.
    rewrite ?bind_ret_l. unfold diagnostic. rewrite ?app_assoc. reflexivity.
  - intros Hsrc p7 rest' ->. unfold convertYAMLError.
    rewrite Hcontains, Hlen, Hsplit. unfold at_index. cbn [lookup list_lookup].
    rewrite bind_ret_l, (drop_last_ok p1 Hp1), !bind_ret_l.
    rewrite Hsrc.
    change (("string" =? "string")%string) with true. cbv iota.
    rewrite ?bind_ret_l. unfold diagnostic. rewrite ?app_assoc. reflexivity.
Qed.

Lemma lookup_or_key_default (table : gmap string string) (key : string) :
  lookup_or_key table key = default key (table !! key).
Proof. unfold lookup_or_key. now destruct (table !! key). Qed.

Lemma lookup_or_zero_default (table : gmap string string) (key : string) :
  lookup_or_zero table key = default "" (table !! key).
Proof. unfold lookup_or_zero. now destruct (table !! key). Qed.

(** C4 (amended): a decode error that holds [cannot unmarshal], splits at
    spaces into seven parts or more and has a second part that is not
    empty.  The observed label is the entry of the kind-name table for the
    fifth part, or the fifth part itself when the table has none.  When
    this label is not [string], the destination token is the seventh part
    and the result is [line <n>: <destination label> cannot be of type
    <observed label>, must be <expected category>]; when it is [string]
    and there is an eighth part, the destination token is the eighth part
    and the observed label reads [string (got <sixth part>)].  [<n>] is
    the second part without its last byte; the destination label is the
    entry of the type-name table for the destination token, or the token
    itself when the table has none; the expected category is the entry of
    the type table [ramlTypes] for the destination token, and is empty
    when this table has none: there the raw token is not used. *)
Theorem C4_translated_diagnostic
  (yamlError a0 p1 a2 a3 p4 p5 p6 : string) (rest : list string) :
  Contains yamlError "cannot unmarshal" = true ->
  Split yamlError " " = a0 :: p1 :: a2 :: a3 :: p4 :: p5 :: p6 :: rest ->
  p1 <> "" ->
  (default p4 (yamlTypeToName !! p4) <> "string" ->
   convertYAMLError yamlError =
     ret (diagnostic (take (String.length p1 - 1) p1)
                     (default p6 (ramlTypeNames !! p6))
                     (default p4 (yamlTypeToName !! p4))
                     (default "" (ramlTypes !! p6)))) /\
  (default p4 (yamlTypeToName !! p4) = "string" ->
   forall p7 rest',
   rest = p7 :: rest' ->
   convertYAMLError yamlError =
     ret (diagnostic (take (String.length p1 - 1) p1)
                     (default p7 (ramlTypeNames !! p7))
                     ("string (got " ++ p5 ++ ")")
                     (default "" (ramlTypes !! p7)))).
Proof.
  intros Hcontains Hsplit Hp1.
  destruct (convertYAMLError_parts _ _ _ _ _ _ _ _ _ Hcontains Hsplit Hp1)
    as [Hother Hstring].
  rewrite <- !lookup_or_key_default. split.
  - intros Hsrc. rewrite (Hother Hsrc).
    now rewrite !lookup_or_key_default, lookup_or_zero_default.
  - intros Hsrc p7 rest' Hrest. rewrite (Hstring Hsrc p7 rest' Hrest).
    now rewrite !lookup_or_key_default, lookup_or_zero_default.
Qed.

(** X16: [populateRAMLError] keeps the errors the value already holds and
    appends the translation of every YAML error, in the order of the YAML
    errors, when every translation returns. *)
Theorem populateRAMLError_appends_in_order (yamlErrors msgs : list string) :
  Forall2 (fun e m => convertYAMLError e = ret m) yamlErrors msgs ->
  forall ramlError,
    populateRAMLError ramlError yamlErrors
    = ret (mkRamlError (Errors ramlError ++ msgs)%list).
Proof.
  induction 1 as [|e m es ms He _ IH]; intros ramlError; simpl.
  - rewrite List.app_nil_r. now destruct ramlError.
  - rewrite He, bind_ret_l, IH. simpl. now rewrite <- List.app_assoc.
Qed.

(** X17: [convertYAMLError] panics exactly on a text that holds [cannot
    unmarshal] and splits into seven parts or more, when the second part
    is empty, or when the observed label is [string] and there are just
    seven parts. *)
Theorem convertYAMLError_panics_iff (yamlError : string) :
  (exists msg, convertYAMLError yamlError = panic msg) <->
  Contains yamlError "cannot unmarshal" = true /\
  exists a0 p1 a2 a3 p4 p5 p6 rest,
    Split yamlError " " = a0 :: p1 :: a2 :: a3 :: p4 :: p5 :: p6 :: rest /\
    (p1 = "" \/ (lookup_or_key yamlTypeToName p4 = "string" /\ rest = [])).
Proof.
  split.
  - intros [msg H].
    destruct (Contains yamlError "cannot unmarshal") eqn:Hc.
    2:{ unfold convertYAMLError in H. rewrite Hc in H. discriminate. }
    split; [reflexivity|].
    destruct (7 <=? Z.of_nat (length (Split yamlError " "))) eqn:Hlen.
    2:{ unfold convertYAMLError in H. rewrite Hc, Hlen in H. discriminate. }
    apply Z.leb_le in Hlen.
    destruct (Split yamlError " ")
      as [|a0 [|p1 [|a2 [|a3 [|p4 [|p5 [|p6 rest]]]]]]] eqn:Hs;
      simpl in Hlen; try lia.
    exists a0, p1, a2, a3, p4, p5, p6, rest. split; [reflexivity|].
    destruct (String.eqb_spec p1 "") as [->|Hp1]; [now left|]. right.
    destruct (convertYAMLError_parts _ _ _ _ _ _ _ _ _ Hc Hs Hp1)
      as [Hother Hstring].
    destruct (String.eqb_spec (lookup_or_key yamlTypeToName p4) "string")
      as [Hsrc|Hsrc].
    + split; [exact Hsrc|]. destruct rest as [|p7 rest']; [reflexivity|].
      rewrite (Hstring Hsrc p7 rest' eq_refl) in H. discriminate.
    + rewrite (Hother Hsrc) in H. discriminate.
  - intros (Hc & a0 & p1 & a2 & a3 & p4 & p5 & p6 & rest & Hs & Hcase).
    assert (Hlen : (7 <=? Z.of_nat (length (Split yamlError " "))) = true).
    { rewrite Hs. apply Z.leb_le. simpl length. lia. }
    unfold convertYAMLError. rewrite Hc, Hlen, Hs.
    unfold at_index. cbn [lookup list_lookup]. rewrite bind_ret_l.
    destruct (String.eqb_spec p1 "") as [->|Hp1].
    + eexists. reflexivity.
    + destruct Hcase as [?|[Hsrc ->]]; [contradiction|].
      rewrite (drop_last_ok p1 Hp1), !bind_ret_l, Hsrc.
      eexists. reflexivity.
Qed.

End ErrorsFacts.

(** ** The decoder of definition choices *)

Module TypesFacts.

Import Types.

Section DecoderFacts.

Variable range : gmap string DefinitionParameters ->
                 list (string * DefinitionParameters).

(** Whatever the order, [range] visits every entry once. *)
Hypothesis range_perm : forall m, range m ≡ₚ map_to_list m.

Lemma range_singleton (name : string) (params : DefinitionParameters) :
  range {[name := params]} = [(name, params)].
Proof.
  apply Permutation_singleton_r.
  rewrite range_perm, map_to_list_singleton. reflexivity.
Qed.

(** C6: when the callback decodes the node into a string, the choice gets
    that string as its name and nil parameters, and the callback is not
    called a second time; when that fails and the callback decodes the
    node into a map with the single key [name], the choice gets [name] and
    the parameters bound to it, after the two calls in this order; on a
    scalar node and on a mapping node with one key the YAML engine behaves
    in these two ways. *)
Theorem C6_scalar_first_then_single_key_mapping (dc : DefinitionChoice) :
  (forall u name,
     into_string u "" = (name, None) ->
     UnmarshalYAML range dc u = ([TString], mkDefinitionChoice name None, None)) /\
  (forall u s e name params,
     into_string u "" = (s, Some e) ->
     into_map u ∅ = ({[name := params]}, None) ->
     UnmarshalYAML range dc u =
       ([TString; TMap], mkDefinitionChoice name params, None)) /\
  (forall traitName,
     UnmarshalYAML range dc (node_unmarshaler (Scalar traitName)) =
       ([TString], mkDefinitionChoice traitName None, None)) /\
  (forall traitName p v,
     UnmarshalYAML range dc
       (node_unmarshaler
          (Mapping [(Scalar traitName, Mapping [(Scalar p, Scalar v)])])) =
       ([TString; TMap],
        mkDefinitionChoice traitName (Some {[p := v]}), None)).
Proof.
  assert (H1 : forall u name,
     into_string u "" = (name, None) ->
     UnmarshalYAML range dc u = ([TString], mkDefinitionChoice name None, None)).
  { intros u name H. unfold UnmarshalYAML. now rewrite H. }
  assert (H2 : forall u s e name params,
     into_string u "" = (s, Some e) ->
     into_map u ∅ = ({[name := params]}, None) ->
     UnmarshalYAML range dc u =
       ([TString; TMap], mkDefinitionChoice name params, None)).
  { intros u s e name params Hs Hm. unfold UnmarshalYAML.
    rewrite Hs, Hm, range_singleton. reflexivity. }
  split; [exact H1|]. split; [exact H2|]. split.
  - intros traitName. apply H1. reflexivity.
  - intros traitName p v. eapply H2; [reflexivity|].
    simpl. unfold decode_entries. simpl.
    rewrite !insert_empty. reflexivity.
Qed.

(** X18: when the node is not a string and decodes into a map that is not
    empty, the choice becomes one entry of that map, a key as the name
    with the parameters bound to it, whatever the order in which [range]
    goes through the map. *)
Theorem UnmarshalYAML_takes_an_entry (dc : DefinitionChoice) (u : Unmarshaler)
  (s e : string) (m : gmap string DefinitionParameters) :
  into_string u "" = (s, Some e) ->
  into_map u ∅ = (m, None) ->
  m <> ∅ ->
  exists name params,
    m !! name = Some params /\
    UnmarshalYAML range dc u =
      ([TString; TMap], mkDefinitionChoice name params, None).
Proof.
  intros Hs Hm Hne. unfold UnmarshalYAML. rewrite Hs, Hm.
  pose proof (range_perm m) as Hperm.
  destruct (range m) as [|kv l] eqn:Hr using rev_ind.
  - symmetry in Hperm. apply Permutation_nil_r in Hperm.
    apply map_to_list_empty_iff in Hperm. contradiction.
  - clear IHl. destruct kv as [name params]. exists name, params. split.
    + apply elem_of_map_to_list. rewrite <- Hperm.
      apply elem_of_app. right. now apply list_elem_of_singleton.
    + now rewrite fold_left_app.
Qed.

(** X19: when the node is not a string and decodes into the empty map, the
    method returns a nil error and leaves the choice as it was. *)
Theorem UnmarshalYAML_empty_mapping (dc : DefinitionChoice) (u : Unmarshaler)
  (s e : string) :
  into_string u "" = (s, Some e) ->
  into_map u ∅ = (∅, None) ->
  UnmarshalYAML range dc u = ([TString; TMap], dc, None).
Proof.
  intros Hs Hm. unfold UnmarshalYAML. rewrite Hs, Hm.
  pose proof (range_perm ∅) as Hperm. rewrite map_to_list_empty in Hperm.
  apply Permutation_nil_r in Hperm. now rewrite Hperm.
Qed.

End DecoderFacts.

End TypesFacts.

(** ** The properties on the sample world *)

Module Examples.

Import Errors Types.

Local Abbreviation preProcess_line' := (preProcess_line Sample.Join Sample.ReadFile).
Local Abbreviation preProcess' := (preProcess Sample.Join Sample.ReadFile).
Local Abbreviation ParseFile' :=
  (ParseFile tt Sample.Join Sample.ReadFile Sample.Unmarshal).

(** The sample document with one inclusion, from the file to the buffer
    handed to the YAML engine. *)
Example ParseFile_api :
  ParseFile' "api.raml" =
  ([EvReadFile "api.raml"; EvReadFile "traits.yaml";
    EvUnmarshal ("title: T" ++ nl ++
                 "traits: - a: 1" ++ nl ++
                 "          b: !include nested.yaml" ++ nl ++
                 "        - c" ++ nl)],
   Returned (Some (mkAPIDefinition "#%RAML 0.8" tt), None)).
Proof. vm_compute. reflexivity. Qed.

Ltac crunch := vm_compute; first [reflexivity | discriminate].

Lemma C1_witness :
  preProcess' Sample.api_body "" =
  ([EvReadFile "traits.yaml"],
   Returned ("title: T" ++ nl ++
             "traits: - a: 1" ++ nl ++
             "          b: !include nested.yaml" ++ nl ++
             "        - c" ++ nl, None)).
Proof.
  assert (H := C1_included_lines_reindented Sample.Join Sample.ReadFile
                 "" Sample.api_body "traits: !include traits.yaml" Sample.traits_yaml
                 "- a: 1" ["title: T"] []
                 ["  b: !include nested.yaml"; "- c"] 8).
  destruct H as (_ & H & _).
  - crunch.
  - constructor; [left; crunch|constructor].
  - constructor.
  - crunch.
  - discriminate.
  - crunch.
  - crunch.
  - crunch.
  - right. exists ["- a: 1"; "  b: !include nested.yaml"], "- c".
    split; [reflexivity|split; [discriminate|crunch]].
  - repeat constructor; crunch.
  - vm_compute in H |- *. exact H.
Defined.

(** C1 fails in three ways.  A file that is read without error and holds
    a line of 65536 bytes is cut at that line without any error: its
    first line comes out, the long line and the line after it do not.  A
    file whose lines end with a carriage return and a line feed comes out
    without the carriage returns.  And when a later line of the document
    fails, nothing comes out at all. *)
Lemma C1_counterexample :
  Cases.ReadFile "long.yaml" =
    (unlines ["x: 1"] ++ Fixtures.long_line 65536 ++ nl ++
     "k: !include two.yaml" ++ nl, None) /\
  preProcess Sample.Join Cases.ReadFile ("a: !include long.yaml" ++ nl) "" =
    ([EvReadFile "long.yaml"], Returned ("a: x: 1" ++ nl, None)) /\
  Cases.ReadFile "crlf.yaml" =
    ("x: 1" ++ String CR nl ++ "y: 2" ++ String CR nl, None) /\
  preProcess Sample.Join Cases.ReadFile ("a: !include crlf.yaml" ++ nl) "" =
    ([EvReadFile "crlf.yaml"],
     Returned ("a: x: 1" ++ nl ++ "   y: 2" ++ nl, None)) /\
  preProcess Sample.Join Cases.ReadFile
    ("a: !include two.yaml" ++ nl ++ "b: !include missing.yaml" ++ nl) "" =
    ([EvReadFile "two.yaml"; EvReadFile "missing.yaml"],
     Returned ("", Some ("Error including file missing.yaml:" ++ nl ++
       "    Could not read file missing.yaml (Error: open missing.yaml: no such file or directory)"))).
Proof.
  split; [reflexivity|]. split; [|repeat split; vm_compute; reflexivity].
  rewrite (preProcess_document_with_tokens Sample.Join Cases.ReadFile ""
             ("a: !include long.yaml" ++ nl) "a: !include long.yaml"
             (unlines ["x: 1"] ++ Fixtures.long_line 65536 ++ nl ++
              "k: !include two.yaml" ++ nl) [] [] ["x: 1"]).
  - vm_compute. reflexivity.
  - vm_compute. reflexivity.
  - constructor.
  - constructor.
  - vm_compute. discriminate.
  - vm_compute. discriminate.
  - vm_compute. discriminate.
  - reflexivity.
  - rewrite Scanner_cut_at_long_line; [reflexivity| | |].
    + repeat constructor; vm_compute; reflexivity.
    + vm_compute. reflexivity.
    + vm_compute. discriminate.
Qed.

Lemma C2_witness :
  preProcess' (unlines ["title: T"; "version: 1"]) ""
  = ret (unlines ["title: T"; "version: 1"], None).
Proof.
  apply (C2_identity_on_newline_terminated_documents Sample.Join Sample.ReadFile).
  - repeat constructor; vm_compute; reflexivity.
  - repeat constructor; vm_compute; reflexivity.
Defined.

(** C2 fails on a document whose last line has no line feed: the output
    has one more byte than the input. *)
Lemma C2_counterexample :
  Index "a" "!include" = -1 /\
  preProcess' "a" "" = ret ("a" ++ nl, None) /\
  "a" ++ nl <> "a".
Proof. repeat split; try (vm_compute; reflexivity). vm_compute. discriminate. Qed.

Lemma C3_witness :
  ParseFile' "other.raml" =
  ([EvReadFile "other.raml"], Returned (None, Some versionError)).
Proof.
  refine (proj2 (C3_version_error_iff_marker_is_not_a_prefix
            tt Sample.Join Sample.ReadFile Sample.Unmarshal
            "other.raml" "" "other.raml"
            ("#%RAML 1.0" ++ nl ++ "title: T" ++ nl)
            ("#%RAML 1.0" ++ nl) ("title: T" ++ nl)
            [EvReadFile "other.raml"] _ _ _) _);
    vm_compute; reflexivity.
Defined.

(** C3 fails on a first line that goes on after the marker: the first line
    is not the marker, and the file is parsed all the same. *)
Lemma C3_counterexample :
  Sample.ReadFile "trailing.raml"
    = ("#%RAML 0.8 and more" ++ nl ++ "title: T" ++ nl, None) /\
  "#%RAML 0.8 and more" <> versionMarker /\
  ParseFile' "trailing.raml" =
    ([EvReadFile "trailing.raml"; EvUnmarshal ("title: T" ++ nl)],
     Returned (Some (mkAPIDefinition "#%RAML 0.8" tt), None)).
Proof. repeat split; try (vm_compute; reflexivity). vm_compute. discriminate. Qed.

Lemma C4_witness :
  convertYAMLError "line 5: cannot unmarshal !!str `abc` into raml.HTTPCode"
  = ret "line 5: HTTP code cannot be of type string (got `abc`), must be integer" /\
  convertYAMLError "line 5: cannot unmarshal !!seq into bool"
  = ret "line 5: bool cannot be of type sequence, must be ".
Proof.
  split.
  - assert (H := ErrorsFacts.C4_translated_diagnostic
                   "line 5: cannot unmarshal !!str `abc` into raml.HTTPCode"
                   "line" "5:" "cannot" "unmarshal" "!!str" "`abc`" "into"
                   ["raml.HTTPCode"]).
    destruct H as (_ & H); [crunch|crunch|discriminate|].
    specialize (H ltac:(crunch) "raml.HTTPCode" [] eq_refl).
    vm_compute in H |- *. exact H.
  - assert (H := ErrorsFacts.C4_translated_diagnostic
                   "line 5: cannot unmarshal !!seq into bool"
                   "line" "5:" "cannot" "unmarshal" "!!seq" "into" "bool" []).
    destruct H as (H & _); [crunch|crunch|discriminate|].
    specialize (H ltac:(crunch)).
    vm_compute in H |- *. exact H.
Defined.

(** C4 fails in three ways: for a destination type that the type table
    does not hold the raw token is not used, the expected category is
    empty; seven parts with an observed label [string] panic on the eighth
    part; an empty second part panics on the removal of its last byte. *)
Lemma C4_counterexample :
  ramlTypes !! "bool" = None /\
  convertYAMLError "line 5: cannot unmarshal !!seq into bool"
    = ret "line 5: bool cannot be of type sequence, must be " /\
  convertYAMLError "line 5: cannot unmarshal !!seq into bool"
    <> ret "line 5: bool cannot be of type sequence, must be bool" /\
  length (Split "line 5: cannot unmarshal !!str into int" " ") = 7%nat /\
  convertYAMLError "line 5: cannot unmarshal !!str into int"
    = panic "runtime error: index out of range" /\
  length (Split "line  cannot unmarshal !!seq into int" " ") = 7%nat /\
  convertYAMLError "line  cannot unmarshal !!seq into int"
    = panic "runtime error: slice bounds out of range".
Proof. repeat split; try (vm_compute; reflexivity). vm_compute. discriminate. Qed.

Lemma C5_witness :
  ParseFile' "broken.raml" =
  ([EvReadFile "broken.raml"; EvReadFile "missing.yaml"],
   Returned
     (None,
      Some ("Error preprocessing RAML file (Error: " ++
            ("Error including file " ++ "missing.yaml" ++ ":" ++ nl ++ "    " ++
             "Could not read file missing.yaml (Error: open missing.yaml: no such file or directory)") ++
            ")"))).
Proof.
  assert (H := C5_unreadable_include_aborts
                 tt Sample.Join Sample.ReadFile Sample.Unmarshal ""
                 ("title: T" ++ nl ++ "schemas: !include missing.yaml" ++ nl ++
                  "version: 1" ++ nl)
                 "schemas: !include missing.yaml"
                 "Could not read file missing.yaml (Error: open missing.yaml: no such file or directory)"
                 ["title: T"] ["version: 1"] None [EvReadFile "missing.yaml"]).
  destruct H as (_ & H).
  - crunch.
  - constructor; [left; crunch|constructor].
  - crunch.
  - crunch.
  - right. split; [crunch|]. split; [crunch|].
    exists "", "open missing.yaml: no such file or directory".
    split; crunch.
  - specialize (H "broken.raml" "broken.raml"
                  ("#%RAML 0.8" ++ nl ++ "title: T" ++ nl ++
                   "schemas: !include missing.yaml" ++ nl ++ "version: 1" ++ nl)
                  ("#%RAML 0.8" ++ nl)
                  ltac:(crunch) ltac:(crunch) ltac:(crunch) ltac:(crunch)
                  ltac:(crunch)).
    destruct H as (H & _). vm_compute in H |- *. exact H.
Defined.

(** C5 fails in three ways on documents that hold a directive whose file
    cannot be read.  After a line of 65536 bytes the directive is never
    scanned: the error is that of the scanner and names no file.  After a
    line that ends with the marker, [preProcess] panics before it comes to
    the directive.  On the first line of the main file, after the version
    marker, the directive is consumed with that line: the file is decoded
    and no error is returned. *)
Lemma C5_counterexample :
  Cases.ReadFile "missing.yaml"
    = ("", Some "open missing.yaml: no such file or directory") /\
  preProcess Sample.Join Cases.ReadFile
    (Fixtures.long_line 65536 ++ nl ++ "s: !include missing.yaml" ++ nl) "" =
    ret ("", Some ("Error reading YAML file: " ++
                   "bufio.Scanner: token too long")) /\
  preProcess Sample.Join Cases.ReadFile
    ("t: !include" ++ nl ++ "s: !include missing.yaml" ++ nl) "" =
    panic "runtime error: slice bounds out of range" /\
  Cases.ReadFile "version.raml"
    = ("#%RAML 0.8 !include missing.yaml" ++ nl, None) /\
  ParseFile tt Sample.Join Cases.ReadFile Sample.Unmarshal "version.raml" =
    ([EvReadFile "version.raml"; EvUnmarshal ""],
     Returned (Some (mkAPIDefinition "#%RAML 0.8" tt), None)).
Proof.
  split; [vm_compute; reflexivity|].
  split; [|repeat split; vm_compute; reflexivity].
  apply (preProcess_stops_at_long_first_line Sample.Join Cases.ReadFile ""
           (Fixtures.long_line 65536) ("s: !include missing.yaml" ++ nl)).
  - vm_compute. reflexivity.
  - vm_compute. discriminate.
Qed.

Lemma C6_witness :
  UnmarshalYAML map_to_list (mkDefinitionChoice "" None)
    (node_unmarshaler (Scalar "traitName"))
  = ([TString], mkDefinitionChoice "traitName" None, None) /\
  UnmarshalYAML map_to_list (mkDefinitionChoice "" None)
    (node_unmarshaler
       (Mapping [(Scalar "traitName", Mapping [(Scalar "p", Scalar "v")])]))
  = ([TString; TMap],
     mkDefinitionChoice "traitName" (Some {["p" := "v"]}), None).
Proof.
  pose proof (TypesFacts.C6_scalar_first_then_single_key_mapping map_to_list
                (fun m => reflexivity (map_to_list m))
                (mkDefinitionChoice "" None)) as (_ & _ & Hs & Hm).
  split; [apply Hs | apply Hm].
Defined.

Lemma C7_witness :
  preProcess' Sample.api_body "" =
  ([EvReadFile "traits.yaml"],
   Returned ("title: T" ++ nl ++
             ("traits: " ++ ("- a: 1" ++ nl ++ "        ") ++
              "  b: !include nested.yaml" ++ nl ++ ("        - c" ++ nl)),
             None)).
Proof.
  assert (H := C7_nested_directives_are_copied Sample.Join Sample.ReadFile
                 "" Sample.api_body "traits: !include traits.yaml" Sample.traits_yaml
                 "  b: !include nested.yaml" ["title: T"] []
                 ["- a: 1"] ["- c"] 8).
  destruct H as (H & _).
  - crunch.
  - constructor; [left; crunch|constructor].
  - constructor.
  - crunch.
  - discriminate.
  - crunch.
  - crunch.
  - crunch.
  - right. exists ["- a: 1"; "  b: !include nested.yaml"], "- c".
    split; [reflexivity|split; [discriminate|crunch]].
  - repeat constructor; crunch.
  - crunch.
  - vm_compute in H |- *. exact H.
Defined.

(** C7 fails in two ways.  A line with the marker that follows a line of
    65536 bytes in the included file is neither copied nor expanded: the
    output holds no marker and the file it names is not read.  And when a
    later line of the document fails, the lines of the included file,
    the one with the marker among them, are not in the output, which is
    nil. *)
Lemma C7_counterexample :
  Cases.ReadFile "long.yaml" =
    (unlines ["x: 1"] ++ Fixtures.long_line 65536 ++ nl ++
     "k: !include two.yaml" ++ nl, None) /\
  preProcess Sample.Join Cases.ReadFile ("a: !include long.yaml" ++ nl) "" =
    ([EvReadFile "long.yaml"], Returned ("a: x: 1" ++ nl, None)) /\
  Index ("a: x: 1" ++ nl) "!include" = -1 /\
  Cases.ReadFile "nested.yaml" = ("k: !include two.yaml" ++ nl, None) /\
  preProcess Sample.Join Cases.ReadFile
    ("a: !include nested.yaml" ++ nl ++ "b: !include missing.yaml" ++ nl) "" =
    ([EvReadFile "nested.yaml"; EvReadFile "missing.yaml"],
     Returned ("", Some ("Error including file missing.yaml:" ++ nl ++
       "    Could not read file missing.yaml (Error: open missing.yaml: no such file or directory)"))).
Proof.
  split; [reflexivity|]. split; [|repeat split; vm_compute; reflexivity].
  rewrite (preProcess_document_with_tokens Sample.Join Cases.ReadFile ""
             ("a: !include long.yaml" ++ nl) "a: !include long.yaml"
             (unlines ["x: 1"] ++ Fixtures.long_line 65536 ++ nl ++
              "k: !include two.yaml" ++ nl) [] [] ["x: 1"]).
  - vm_compute. reflexivity.
  - vm_compute. reflexivity.
  - constructor.
  - constructor.
  - vm_compute. discriminate.
  - vm_compute. discriminate.
  - vm_compute. discriminate.
  - reflexivity.
  - rewrite Scanner_cut_at_long_line; [reflexivity| | |].
    + repeat constructor; vm_compute; reflexivity.
    + vm_compute. reflexivity.
    + vm_compute. discriminate.
Qed.

Lemma C8_witness :
  ParseFile' "marker.raml" =
  ([EvReadFile "marker.raml"],
   Panicked "runtime error: slice bounds out of range").
Proof.
  assert (H := C8_ParseFile_panics_instead_of_returning
                 tt Sample.Join Sample.ReadFile Sample.Unmarshal
                 "marker.raml" "" "marker.raml"
                 ("#%RAML 0.8" ++ nl ++ "traits: !include" ++ nl)
                 ("#%RAML 0.8" ++ nl) ("traits: !include" ++ nl)
                 "traits: !include" [] [] None
                 ltac:(crunch) ltac:(crunch) ltac:(crunch) ltac:(crunch)
                 ltac:(crunch) ltac:(crunch) ltac:(constructor) ltac:(crunch)
                 ltac:(crunch)).
  vm_compute in H |- *. exact H.
Defined.

Lemma X20_witness :
  (Some (mkAPIDefinition "#%RAML 0.8" tt) <> None /\ @None string = None) \/
  (Some (mkAPIDefinition "#%RAML 0.8" tt) = None /\ @None string <> None).
Proof.
  refine (proj1 (ParseFile_document_or_error tt Sample.Join Sample.ReadFile
                   Sample.Unmarshal "api.raml") _ _ _).
  vm_compute. reflexivity.
Defined.

Lemma C9_witness :
  preProcess' "!include" "" = panic "runtime error: slice bounds out of range".
Proof.
  refine (proj2 (proj2 (C9_marker_at_end_of_line_panics
            Sample.Join Sample.ReadFile "" "" "!include" 0 _ _ _))
          "!include" [] [] None [] "" _ _);
    try (vm_compute; reflexivity); discriminate.
Defined.

Lemma C10_witness :
  ParseFile' "bare.raml" =
  ([EvReadFile "bare.raml"],
   Returned (None, Some "Problem reading RAML file (Error: EOF)")).
Proof.
  refine (proj1 (C10_first_line_needs_a_line_feed
            tt Sample.Join Sample.ReadFile Sample.Unmarshal
            "bare.raml" "" "bare.raml" "#%RAML 0.8"
            [EvReadFile "bare.raml"] _ _ _));
    vm_compute; reflexivity.
Defined.

End Examples.

(** ** The further properties on the second world *)

Module MoreExamples.

Import Errors Types.

Local Abbreviation J := Sample.Join.
Local Abbreviation F := Fixtures.ReadFile.

(** What follows the first line of the main file of the second world. *)
Definition body : string :=
  "a: !include empty.yaml" ++ nl ++ "b: !include two.yaml" ++ nl ++ "c: 3".

Definition body_out : string :=
  "a: b: x: 1" ++ nl ++ "   y: 2" ++ nl ++ "c: 3" ++ nl.

Example ParseFile_main :
  ParseFile 0 J F Fixtures.Unmarshal "main.raml" =
  ([EvReadFile "main.raml"; EvReadFile "empty.yaml"; EvReadFile "two.yaml";
    EvUnmarshal body_out],
   Returned (Some (mkAPIDefinition "#%RAML 0.8" (len body_out)), None)).
Proof. vm_compute. reflexivity. Qed.

Lemma X2_witness :
  outcome (preProcess J F ("s: !include missing.yaml" ++ nl) "") =
    Returned ("", Some ("Error including file missing.yaml:" ++ nl ++
      "    Could not read file missing.yaml (Error: open missing.yaml: no such file or directory)")) /\
  "" = "".
Proof.
  split; [vm_compute; reflexivity|].
  apply (preProcess_error_has_nil_buffer J F
           ("s: !include missing.yaml" ++ nl) "" ""
           ("Error including file missing.yaml:" ++ nl ++
            "    Could not read file missing.yaml (Error: open missing.yaml: no such file or directory)")).
  vm_compute. reflexivity.
Defined.

Lemma X3_witness :
  body_out = expansions J F "" (fst (Bufio.Scanner body)).
Proof.
  apply (preProcess_output_is_expansion J F body "" body_out
           [EvReadFile "empty.yaml"; EvReadFile "two.yaml"]).
  vm_compute. reflexivity.
Defined.

Lemma X4_witness :
  [EvReadFile "empty.yaml"; EvReadFile "two.yaml"]
  = host_reads J "" (fst (Bufio.Scanner body)).
Proof.
  apply (preProcess_reads_in_document_order J F body "" body_out).
  vm_compute. reflexivity.
Defined.

Lemma X6_witness :
  preProcess_loop J F "" ["a: !include empty.yaml"; "c: 3"] "" =
  ([EvReadFile "empty.yaml"], Returned (Next ("" ++ "a: " ++ "c: 3" ++ nl))).
Proof.
  apply (preProcess_empty_include_joins_lines J F ""
           "" "a: !include empty.yaml" "c: 3" "empty.yaml"
           [EvReadFile "empty.yaml"] 3);
    try (vm_compute; reflexivity); discriminate.
Defined.

Lemma X7_witness :
  preProcess J F ("t: 1" ++ nl ++ "k: !include " ++ nl ++ "u: 2" ++ nl) "" =
  ([], Returned ("", Some ("Error including file " ++ "" ++ ":" ++ nl ++
                          "    " ++ "File name cannot be nil: " ++ J "" ""))).
Proof.
  apply (preProcess_empty_file_name J F ""
           ("t: 1" ++ nl ++ "k: !include " ++ nl ++ "u: 2" ++ nl)
           "k: !include " ["t: 1"] ["u: 2"] None [] ("t: 1" ++ nl));
    try (vm_compute; reflexivity); vm_compute; discriminate.
Defined.

Lemma X8_witness :
  preProcess_line J F "" "" ("b: " ++ "!include" ++ String "X" "two.yaml") =
  ([EvReadFile (J "" "two.yaml")],
   Returned (Next ("" ++ "b: " ++
                   reindent (len "b: ")
                     (fst (Bufio.Scanner (fst (F (J "" "two.yaml")))))))).
Proof.
  apply (preProcess_skips_byte_after_marker J F "" "" "b: " "two.yaml" "X");
    try (vm_compute; reflexivity); discriminate.
Defined.

Lemma X9_witness :
  preProcess J F (unlines ["a: 1"] ++ "b: 2") ""
  = ret ((unlines ["a: 1"] ++ "b: 2") ++ nl, None).
Proof.
  apply (preProcess_adds_final_line_feed J F "" "b: 2" ["a: 1"]);
    repeat constructor; try (vm_compute; reflexivity); discriminate.
Defined.

Lemma X10_witness :
  preProcess J F (unlines (map (fun l => l ++ String CR "") ["a: 1"; "b: 2"])) ""
  = ret (unlines ["a: 1"; "b: 2"], None).
Proof.
  apply (preProcess_turns_crlf_into_lf J F "" ["a: 1"; "b: 2"]);
    repeat constructor; vm_compute; reflexivity.
Defined.

Lemma X11_witness :
  preProcess J F
    (unlines ["a: 1"] ++ Fixtures.long_line 65536 ++ nl ++
     "b: !include two.yaml") ""
  = ret ("", Some ("Error reading YAML file: " ++
                   "bufio.Scanner: token too long")).
Proof.
  apply (preProcess_line_too_long J F "" (Fixtures.long_line 65536)
           "b: !include two.yaml" ["a: 1"]);
    repeat constructor; try (vm_compute; reflexivity).
  vm_compute. discriminate.
Defined.

Lemma X14_witness :
  ParseFile 0 J F Fixtures.Unmarshal "dir/nope.raml" =
  ([EvReadFile (J "dir/" "nope.raml")],
   Returned (None, Some ("Could not read file " ++ J "dir/" "nope.raml" ++
                         " (Error: " ++
                         "open dir/nope.raml: no such file or directory" ++
                         ")"))).
Proof.
  apply (ParseFile_unreadable_main_file 0 J F Fixtures.Unmarshal
           "dir/nope.raml" "dir/" "nope.raml" "");
    try (vm_compute; reflexivity); discriminate.
Defined.

Lemma X16_witness :
  populateRAMLError (mkRamlError ["first"])
    ["line 5: cannot unmarshal !!seq into raml.Trait";
     "yaml: line 3: mapping values are not allowed"]
  = ret (mkRamlError
           (["first"] ++
            ["line 5: trait cannot be of type sequence, must be mapping";
             "YAML error, yaml: line 3: mapping values are not allowed"])%list).
Proof.
  apply (ErrorsFacts.populateRAMLError_appends_in_order
           ["line 5: cannot unmarshal !!seq into raml.Trait";
            "yaml: line 3: mapping values are not allowed"]
           ["line 5: trait cannot be of type sequence, must be mapping";
            "YAML error, yaml: line 3: mapping values are not allowed"]).
  repeat constructor; vm_compute; reflexivity.
Defined.

(** A mapping with two keys. *)
Definition two_keys : Node :=
  Mapping [(Scalar "a", Mapping [(Scalar "p", Scalar "v")]);
           (Scalar "b", Mapping [])].

Definition two_keys_map : gmap string DefinitionParameters :=
  <["b" := Some ∅]> (<["a" := Some (<["p" := "v"]> ∅)]> ∅).

Lemma X18_witness :
  exists name params,
    two_keys_map !! name = Some params /\
    UnmarshalYAML map_to_list (mkDefinitionChoice "" None)
      (node_unmarshaler two_keys)
    = ([TString; TMap], mkDefinitionChoice name params, None).
Proof.
  apply (TypesFacts.UnmarshalYAML_takes_an_entry map_to_list
           (fun m => reflexivity (map_to_list m))
           (mkDefinitionChoice "" None) (node_unmarshaler two_keys)
           "" "cannot unmarshal into string" two_keys_map).
  - vm_compute. reflexivity.
  - vm_compute. reflexivity.
  - intros H. apply (f_equal (fun m => m !! "b")) in H.
    vm_compute in H. discriminate.
Defined.

Lemma X19_witness :
  UnmarshalYAML map_to_list (mkDefinitionChoice "old" None)
    (node_unmarshaler (Mapping []))
  = ([TString; TMap], mkDefinitionChoice "old" None, None).
Proof.
  apply (TypesFacts.UnmarshalYAML_empty_mapping map_to_list
           (fun m => reflexivity (map_to_list m))
           (mkDefinitionChoice "old" None) (node_unmarshaler (Mapping []))
           "" "cannot unmarshal into string");
    vm_compute; reflexivity.
Defined.

End MoreExamples.
